(** * Task curriculum and reward engine of [envs/env_trs_uni.py]

    A shallow embedding of the task-conditioned Crafter environment:
    the task encoder and decoder, the two task selectors, the bookkeeping
    of given tasks and the per-step reward state machine, followed by the
    properties of the specification that concern them.

    Conventions of the embedding.
    - Python exceptions are values of [exn]; a method that may raise returns
      a [result].  When a method raises, the embedding says nothing about the
      partially mutated object.
    - [self] is the record [Env]; a method takes it and returns the new one.
    - [np.random] is the interface [RandomState]: the generator is threaded
      through the record, and the theorems hold for every generator that
      respects the ranges numpy documents.
    - Python floats are IEEE 754 binary64 numbers, i.e. Rocq's primitive
      floats; Python's unbounded integers are [Z] or, for counters that only
      grow from zero, [nat].
    - The environment is modelled from its first [reset] on, when the
      dictionaries that [__init__] leaves as [None] exist. *)

From Stdlib Require Import Floats Uint63 ZArith Ascii DecimalString Decimal.
From stdpp Require Import gmap strings list fin_maps pretty.

(** ** Exceptions *)

Inductive exn : Type :=
| KeyError (key : string)
| IndexError
| ValueError
| ZeroDivisionError.

Inductive result (A : Type) : Type :=
| OK (a : A)
| Raise (e : exn).

Arguments OK {A} a.
Arguments Raise {A} e.

Definition bind {A B : Type} (m : result A) (k : A → result B) : result B :=
  match m with
  | OK a => k a
  | Raise e => Raise e
  end.

Notation "'let*' p ':=' m 'in' k" := (bind m (λ p, k))
  (at level 10, p pattern, m at level 100, k at level 200).

Definition is_OK {A : Type} (m : result A) : Prop := ∃ a, m = OK a.

(** ** Python built-ins used by the module *)

(** [d[k]] on a dict. *)
Definition getitem {V : Type} (d : gmap string V) (k : string) : result V :=
  match d !! k with
  | Some v => OK v
  | None => Raise (KeyError k)
  end.

(** Modelled from the spec: the class of [self._player.achievements] is
    defined by the simulation ([crafter/objects.py]), which is not among the
    sources.  The specification describes it as a mapping from achievement
    names to integer counts on which a missing key is fatal, so
    [achievements[k]] is the lookup of a dict and raises [KeyError] on a key
    that is absent. *)
Definition counter_getitem (achievements : gmap string Z) (k : string)
    : result Z :=
  getitem achievements k.

(** [l[i]] on a list, for an index that is not negative. *)
Definition list_getitem {A : Type} (l : list A) (i : nat) : result A :=
  match l !! i with
  | Some x => OK x
  | None => Raise IndexError
  end.

(** [l[-1]]. *)
Definition list_last {A : Type} (l : list A) : result A :=
  match last l with
  | Some x => OK x
  | None => Raise IndexError
  end.

(** [s.split(sep)] for a separator of one character: never empty, and an
    empty field between two adjacent separators. *)
Fixpoint split (sep : Ascii.ascii) (s : string) : list string :=
  match s with
  | EmptyString => [ EmptyString ]
  | String c s' =>
      if Ascii.eqb c sep then EmptyString :: split sep s'
      else match split sep s' with
           | w :: ws => String c w :: ws
           | [] => [ String c EmptyString ]
           end
  end.

(** [sep.join(ws)]. *)
Definition join (sep : string) (ws : list string) : string :=
  String.concat sep ws.

(** [float(tok)] on the count tokens of the vocabulary: a decimal numeral.
    The conversion of a numeral below [2^63] rounds to the nearest double,
    as Python does.  Python accepts more (a sign, an exponent, [inf]);
    such tokens and longer numerals are outside the vocabulary [COUNT] and
    are rejected here. *)
Definition py_float (tok : string) : result float :=
  match tok with
  | EmptyString => Raise ValueError
  | _ =>
      if (18 <? String.length tok)%nat then Raise ValueError
      else match NilEmpty.uint_of_string tok with
           | Some d => OK (PrimFloat.of_uint63 (Uint63.of_Z (Z.of_uint d)))
           | None => Raise ValueError
           end
  end.

(** [x / y] on floats. *)
Definition float_div (x y : float) : result float :=
  if PrimFloat.eqb y 0%float then Raise ZeroDivisionError
  else OK (PrimFloat.div x y).

(** [a % b] on integers that are not negative. *)
Definition py_mod (a b : nat) : result nat :=
  match b with
  | O => Raise ZeroDivisionError
  | S _ => OK (a mod b)
  end.

(** ** The random generator

    What the module asks of [np.random], with the ranges numpy guarantees. *)
Class RandomState (G : Type) : Type := {
  (** [np.random.choice(np.arange(n), size=1)[0]] *)
  random_choice : nat → G → nat * G;
  random_choice_lt : ∀ n g, 0 < n → (random_choice n g).1 < n;
  (** [np.random.choice([0, 1], size=k)] *)
  random_bits : nat → G → list nat * G;
  random_bits_length : ∀ k g, length (random_bits k g).1 = k;
  random_bits_01 : ∀ k g, Forall (λ b, b ≤ 1) (random_bits k g).1;
  (** [np.random.randint(n, size=1)] *)
  random_randint : nat → G → nat * G;
  random_randint_lt : ∀ n g, 0 < n → (random_randint n g).1 < n;
  (** [np.random.shuffle(a)] *)
  random_shuffle : list nat → G → list nat * G;
  random_shuffle_perm : ∀ l g, (random_shuffle l g).1 ≡ₚ l
}.

(** ** Module constants *)

Definition OBJS : list string := ["table"; "furnace"].
Definition MATS : list string :=
  ["wood"; "stone"; "coal"; "iron"; "diamond"; "drink"].
Definition TOOLS : list string := ["sword"; "pickaxe"].

(** [str(i) for i in range(2, 11)] *)
Definition COUNT : list string := (λ i : nat, pretty i) <$> seq 2 9.

Definition DUMMY_BITS : nat := 10.
Definition DUMMY_TASKS : nat := 2 ^ DUMMY_BITS - 1.

(** The slot through which the environment calls its task selector. *)
Inductive selector : Type :=
| specify_curri_task
| specify_eval_task.

(** [np.unique(np.array(list(SYNONYMS.values())).flatten())]: the synonym
    table lives in [envs/env_utils.py], so the embedding is parametric in the
    words it contributes to the vocabulary. *)
Class Synonyms : Type := SYNONYM_WORDS : list string.

Section Environment.

Context {G : Type} {RS : RandomState G} {SY : Synonyms}.

Definition INSTRS : list string := ["collect"; "make"; "place"] ++ SYNONYM_WORDS.
Definition ENC_ORDER : list string := INSTRS ++ OBJS ++ MATS ++ TOOLS ++ COUNT.

(** ** The environment object *)

Record Env : Type := mkEnv {
  target_achievements : list string;
  target_achievements_base : list string;
  isreptask : list bool;
  task_progress : float;
  task_idx : nat;
  task_enc : list nat;
  task_steps : nat;
  past_achievements : gmap string Z;
  follow_achievements : gmap string nat;
  given_achievements : gmap string nat;
  _specify_task : selector;
  eval_task_seq : list nat;
  eval_id : nat;
  _unlocked : gset string;
  rng : G
}.

Definition set_task_progress (v : float) (e : Env) : Env :=
  mkEnv (target_achievements e) (target_achievements_base e) (isreptask e)
    v (task_idx e) (task_enc e) (task_steps e) (past_achievements e)
    (follow_achievements e) (given_achievements e) (_specify_task e)
    (eval_task_seq e) (eval_id e) (_unlocked e) (rng e).

Definition set_task_idx (v : nat) (e : Env) : Env :=
  mkEnv (target_achievements e) (target_achievements_base e) (isreptask e)
    (task_progress e) v (task_enc e) (task_steps e) (past_achievements e)
    (follow_achievements e) (given_achievements e) (_specify_task e)
    (eval_task_seq e) (eval_id e) (_unlocked e) (rng e).

Definition set_task_enc (v : list nat) (e : Env) : Env :=
  mkEnv (target_achievements e) (target_achievements_base e) (isreptask e)
    (task_progress e) (task_idx e) v (task_steps e) (past_achievements e)
    (follow_achievements e) (given_achievements e) (_specify_task e)
    (eval_task_seq e) (eval_id e) (_unlocked e) (rng e).

Definition set_task_steps (v : nat) (e : Env) : Env :=
  mkEnv (target_achievements e) (target_achievements_base e) (isreptask e)
    (task_progress e) (task_idx e) (task_enc e) v (past_achievements e)
    (follow_achievements e) (given_achievements e) (_specify_task e)
    (eval_task_seq e) (eval_id e) (_unlocked e) (rng e).

Definition set_past_achievements (v : gmap string Z) (e : Env) : Env :=
  mkEnv (target_achievements e) (target_achievements_base e) (isreptask e)
    (task_progress e) (task_idx e) (task_enc e) (task_steps e) v
    (follow_achievements e) (given_achievements e) (_specify_task e)
    (eval_task_seq e) (eval_id e) (_unlocked e) (rng e).

Definition set_follow_achievements (v : gmap string nat) (e : Env) : Env :=
  mkEnv (target_achievements e) (target_achievements_base e) (isreptask e)
    (task_progress e) (task_idx e) (task_enc e) (task_steps e)
    (past_achievements e) v (given_achievements e) (_specify_task e)
    (eval_task_seq e) (eval_id e) (_unlocked e) (rng e).

Definition set_given_achievements (v : gmap string nat) (e : Env) : Env :=
  mkEnv (target_achievements e) (target_achievements_base e) (isreptask e)
    (task_progress e) (task_idx e) (task_enc e) (task_steps e)
    (past_achievements e) (follow_achievements e) v (_specify_task e)
    (eval_task_seq e) (eval_id e) (_unlocked e) (rng e).

Definition set_specify_task (v : selector) (e : Env) : Env :=
  mkEnv (target_achievements e) (target_achievements_base e) (isreptask e)
    (task_progress e) (task_idx e) (task_enc e) (task_steps e)
    (past_achievements e) (follow_achievements e) (given_achievements e) v
    (eval_task_seq e) (eval_id e) (_unlocked e) (rng e).

Definition set_eval_task_seq (v : list nat) (e : Env) : Env :=
  mkEnv (target_achievements e) (target_achievements_base e) (isreptask e)
    (task_progress e) (task_idx e) (task_enc e) (task_steps e)
    (past_achievements e) (follow_achievements e) (given_achievements e)
    (_specify_task e) v (eval_id e) (_unlocked e) (rng e).

Definition set_eval_id (v : nat) (e : Env) : Env :=
  mkEnv (target_achievements e) (target_achievements_base e) (isreptask e)
    (task_progress e) (task_idx e) (task_enc e) (task_steps e)
    (past_achievements e) (follow_achievements e) (given_achievements e)
    (_specify_task e) (eval_task_seq e) v (_unlocked e) (rng e).

Definition set_unlocked (v : gset string) (e : Env) : Env :=
  mkEnv (target_achievements e) (target_achievements_base e) (isreptask e)
    (task_progress e) (task_idx e) (task_enc e) (task_steps e)
    (past_achievements e) (follow_achievements e) (given_achievements e)
    (_specify_task e) (eval_task_seq e) (eval_id e) v (rng e).

Definition set_rng (v : G) (e : Env) : Env :=
  mkEnv (target_achievements e) (target_achievements_base e) (isreptask e)
    (task_progress e) (task_idx e) (task_enc e) (task_steps e)
    (past_achievements e) (follow_achievements e) (given_achievements e)
    (_specify_task e) (eval_task_seq e) (eval_id e) (_unlocked e) v.

(** ** [update_given_ach] *)

(** [f'dummy{i}'] *)
Definition dummy_key (i : nat) : string := "dummy" +:+ pretty i.

(** [d[k] += 1] *)
Definition incr_item (d : gmap string nat) (k : string) : result (gmap string nat) :=
  let* c := getitem d k in
  OK (<[k := c + 1]> d).

Definition update_given_ach (self : Env) : result Env :=
  if task_idx self <? length (target_achievements self) then
    let* name := list_getitem (target_achievements self) (task_idx self) in
    let* given := incr_item (given_achievements self) name in
    OK (set_given_achievements given self)
  else
    let i := task_idx self - length (target_achievements self) in
    let* given := incr_item (given_achievements self) (dummy_key i) in
    OK (set_given_achievements given self).

(** ** [_encode_task] and [_decode_task] *)

(** The loop [for i, word in enumerate(ENC_ORDER)], entered at index [i]
    with [words] left to visit. *)
Fixpoint bag_of_words (task_words : list string) (i : nat)
    (words : list string) (encoding : list nat) : list nat :=
  match words with
  | [] => encoding
  | word :: rest =>
      bag_of_words task_words (S i) rest
        (if bool_decide (word ∈ task_words) then <[i := 1]> encoding
         else encoding)
  end.

(** The parameter is not read: the method looks at [self.task_idx]. *)
Definition _encode_task (task_idx_arg : nat) (self : Env)
    : result (list nat * Env) :=
  let encoding := replicate (length ENC_ORDER + DUMMY_BITS) 0 in
  if task_idx self <? length (target_achievements self) then
    let* task := list_getitem (target_achievements self) (task_idx self) in
    let task_words := split "_"%char task in
    OK (bag_of_words task_words 0 ENC_ORDER encoding, self)
  else
    let '(dummy_enc, g1) := random_bits DUMMY_BITS (rng self) in
    (* encoding[-DUMMY_BITS:] = dummy_enc *)
    let encoding := take (length encoding - DUMMY_BITS) encoding ++ dummy_enc in
    let '(rdn_idx, g2) := random_randint DUMMY_BITS g1 in
    (* encoding[-rdn_idx-1] = 1 *)
    if length encoding <? rdn_idx + 1 then Raise IndexError
    else OK (<[length encoding - (rdn_idx + 1) := 1]> encoding, set_rng g2 self).

(** The comprehension [[ENC_ORDER[int(i)] for i, c in enumerate(task_enc) if c]],
    entered at index [i]. *)
Fixpoint decode_words (i : nat) (task_enc : list nat) : result (list string) :=
  match task_enc with
  | [] => OK []
  | c :: rest =>
      if c =? 0 then decode_words (S i) rest
      else
        let* w := list_getitem ENC_ORDER i in
        let* ws := decode_words (S i) rest in
        OK (w :: ws)
  end.

Definition _decode_task (task_enc : list nat) : result string :=
  if existsb (λ c, 0 <? c) (drop (length task_enc - DUMMY_BITS) task_enc)
  then OK "dummy task"
  else
    let* ws := decode_words 0 task_enc in
    OK (join " " ws).

(** ** The task selectors *)

Definition _specify_curri_task (self : Env) : result Env :=
  let '(idx, g) :=
    random_choice (length (target_achievements self) + DUMMY_TASKS) (rng self) in
  let self := set_task_idx idx (set_rng g self) in
  let self := set_task_steps 0 self in
  let* (enc, self) := _encode_task (task_idx self) self in
  OK (set_task_enc enc self).

Definition _specify_eval_task (self : Env) : result Env :=
  let* idx := list_getitem (eval_task_seq self) (eval_id self) in
  let self := set_task_idx idx self in
  let self := set_eval_id (eval_id self + 1) self in
  let* self :=
    if length (target_achievements self) <=? eval_id self then
      let* r := py_mod (eval_id self) (length (target_achievements self)) in
      let self := set_eval_id r self in
      let '(shuffled, g) := random_shuffle (eval_task_seq self) (rng self) in
      OK (set_eval_task_seq shuffled (set_rng g self))
    else OK self in
  let self := set_task_steps 0 self in
  let* (enc, self) := _encode_task (task_idx self) self in
  OK (set_task_enc enc self).

(** [self._specify_task()] *)
Definition call_specify_task (self : Env) : result Env :=
  match _specify_task self with
  | specify_curri_task => _specify_curri_task self
  | specify_eval_task => _specify_eval_task self
  end.

Definition set_curriculum (train : bool) (self : Env) : Env :=
  if train then set_specify_task specify_curri_task self
  else
    let arange := seq 0 (length (target_achievements self)) in
    let '(shuffled, g) := random_shuffle arange (rng self) in
    let self := set_eval_task_seq shuffled (set_rng g self) in
    let self := set_eval_id 0 self in
    set_specify_task specify_eval_task self.

(** ** [reset]

    The part of [reset] that concerns the task state.  The world, the player
    and the inherited inventory belong to the simulation;
    [player_achievements] is the achievement counter of the player that
    [reset] has just created. *)
Definition reset (player_achievements : gmap string Z) (self : Env)
    : result Env :=
  let self := set_unlocked ∅ self in
  let self := set_past_achievements player_achievements self in
  let zeros : gmap string nat :=
    list_to_map ((λ k, (k, 0)) <$> target_achievements self) in
  let self := set_follow_achievements zeros self in
  let self := set_given_achievements zeros self in
  let dummies : gmap string nat :=
    list_to_map ((λ i, (dummy_key i, 0)) <$> seq 0 DUMMY_TASKS) in
  (* dict.update: the keys of the argument win *)
  let self := set_given_achievements (dummies ∪ given_achievements self) self in
  let* self := call_specify_task self in
  let* self := update_given_ach self in
  OK (set_task_progress 0 self).

(** ** [_get_reward]

    [achievements] is [self._player.achievements] as the simulation left it
    for this step.  The result is the reward and the environment after the
    step. *)
Definition _get_reward (achievements : gmap string Z) (self : Env)
    : result (float * Env) :=
  let reward := 0%float in
  let unlocked :=
    dom (filter (λ kv, (0 < kv.2)%Z) achievements) ∖ _unlocked self in
  let self := set_unlocked (_unlocked self ∪ unlocked) self in
  let task_failed := true in
  let* (reward, task_failed, self) :=
    if task_idx self <? length (target_achievements self) then
      let* task_desc := list_getitem (target_achievements self) (task_idx self) in
      let* btask_desc :=
        list_getitem (target_achievements_base self) (task_idx self) in
      let task_words := split "_"%char task_desc in
      let btask_words := split "_"%char btask_desc in
      let* rep := list_getitem (isreptask self) (task_idx self) in
      if rep then
        (* repeat task; [sub_taskdesc], which the method also builds, is
           not used *)
        let sub_btaskdesc := join "_" (removelast btask_words) in
        let* cur := counter_getitem achievements sub_btaskdesc in
        let* old := counter_getitem (past_achievements self) sub_btaskdesc in
        let* self :=
          if (0 <? cur - old)%Z then
            let* tok := list_last task_words in
            let* n := py_float tok in
            let* q := float_div 1 n in
            OK (set_task_progress (PrimFloat.add (task_progress self) q) self)
          else OK self in
        if PrimFloat.leb 1 (task_progress self) then
          let reward := PrimFloat.add reward 1 in
          let* follow := incr_item (follow_achievements self) task_desc in
          let self := set_follow_achievements follow self in
          let* self := call_specify_task self in
          let* self := update_given_ach self in
          let self := set_task_progress 0 self in
          OK (reward, false, self)
        else OK (reward, task_failed, self)
      else
        let* cur := counter_getitem achievements btask_desc in
        let* old := counter_getitem (past_achievements self) btask_desc in
        if (0 <? cur - old)%Z then
          (* agent successfully completed given task *)
          let reward := PrimFloat.add reward 1 in
          let* follow := incr_item (follow_achievements self) task_desc in
          let self := set_follow_achievements follow self in
          let* self := call_specify_task self in
          let* self := update_given_ach self in
          let self := set_task_progress 0 self in
          OK (reward, false, self)
        else OK (reward, task_failed, self)
    else OK (reward, task_failed, self) in
  let* self :=
    if task_failed then
      (* increase task step, check if agent is taking too long *)
      let self := set_task_steps (task_steps self + 1) self in
      if 300 <? task_steps self then
        let* self := call_specify_task self in
        let* self := update_given_ach self in
        OK (set_task_progress 0 self)
      else OK self
    else OK self in
  let self := set_past_achievements achievements self in
  OK (reward, self).

(** A sequence of steps: the counters that successive calls of [step] hand
    to [_get_reward]; for each step, the reward returned and the environment
    it leaves. *)
Fixpoint run (steps : list (gmap string Z)) (self : Env)
    : result (list (float * Env)) :=
  match steps with
  | [] => OK []
  | achievements :: rest =>
      let* (reward, self) := _get_reward achievements self in
      let* results := run rest self in
      OK ((reward, self) :: results)
  end.

(** [k] consecutive calls of the selector and the indices they choose. *)
Fixpoint select_many (k : nat) (self : Env) : result (list nat * Env) :=
  match k with
  | O => OK ([], self)
  | S k' =>
      let* self := call_specify_task self in
      let* (chosen, self') := select_many k' self in
      OK (task_idx self :: chosen, self')
  end.

End Environment.

Arguments Env G : clear implicits.
Arguments ENC_ORDER {SY} : simpl never.
Arguments DUMMY_BITS : simpl never.
Arguments DUMMY_TASKS : simpl never.
Arguments call_specify_task : simpl never.
Arguments update_given_ach : simpl never.
Arguments _encode_task : simpl never.
Arguments incr_item : simpl never.

(** ** A scripted generator

    A generator that replays a list of numbers, zero once the list is used
    up.  Every draw is reduced to the range asked for; a shuffle rotates the
    array by the number drawn. *)
Module Script.

Definition draw (g : list nat) : nat * list nat :=
  match g with
  | [] => (0, [])
  | x :: g' => (x, g')
  end.

Definition choice (n : nat) (g : list nat) : nat * list nat :=
  let '(x, g') := draw g in (x mod n, g').

Definition bits (k : nat) (g : list nat) : list nat * list nat :=
  ((λ x, x mod 2) <$> take k (g ++ replicate k 0), drop k g).

Definition shuffle (l : list nat) (g : list nat) : list nat * list nat :=
  let '(x, g') := draw g in (rotate x l, g').

Lemma choice_lt n g : 0 < n → (choice n g).1 < n.
Proof.
  intros Hn. unfold choice. destruct (draw g) as [x g']. simpl.
  apply Nat.mod_upper_bound. lia.
Qed.

Lemma bits_length k g : length (bits k g).1 = k.
Proof.
  unfold bits. simpl. rewrite length_fmap, length_take, length_app, length_replicate. lia.
Qed.

Lemma bits_01 k g : Forall (λ b, b ≤ 1) (bits k g).1.
Proof.
  unfold bits. simpl. apply Forall_fmap, Forall_forall. intros x _. simpl.
  pose proof (Nat.mod_upper_bound x 2). lia.
Qed.

Lemma shuffle_perm l g : (shuffle l g).1 ≡ₚ l.
Proof.
  unfold shuffle. destruct (draw g) as [x g']. simpl. unfold rotate.
  rewrite Permutation_app_comm. by rewrite take_drop.
Qed.

#[export] Instance random_state : RandomState (list nat) := {|
  random_choice := choice;
  random_choice_lt := choice_lt;
  random_bits := bits;
  random_bits_length := bits_length;
  random_bits_01 := bits_01;
  random_randint := choice;
  random_randint_lt := choice_lt;
  random_shuffle := shuffle;
  random_shuffle_perm := shuffle_perm
|}.

End Script.

(** ** A small environment

    Four tasks over wood and tables, with the scripted generator, for the
    examples at the end.  The synonym words are an example: no theorem
    depends on them. *)
Module Demo.

Import Script.

#[export] Instance synonyms : Synonyms := ["chop"; "craft"; "gather"; "put"].

Definition tasks : list string :=
  ["collect_wood"; "collect_wood_5"; "collect_wood_10"; "place_table"].

Definition repeats : list bool := [false; true; true; false].

(** The environment before its first [reset], with the selector [slot] and
    the draws [script]. *)
Definition blank (slot : selector) (script : list nat) : Env (list nat) :=
  mkEnv tasks tasks repeats 0%float 0 [] 0 ∅ ∅ ∅ slot [] 0 ∅ script.

(** The achievement counter of a player with [wood] wood collected and
    [tables] tables placed. *)
Definition counter (wood tables : Z) : gmap string Z :=
  {[ "collect_wood" := wood; "place_table" := tables ]}.

(** [k] steps, each with one more wood collected, after [from] of them. *)
Definition wood_gains (from k : nat) : list (gmap string Z) :=
  (λ i : nat, counter (Z.of_nat i) 0) <$> seq (S from) k.

(** The value of a call that returned. *)
Definition returned {A : Type} (d : A) (m : result A) : A :=
  match m with
  | OK a => a
  | Raise _ => d
  end.

(** Whether a call returned. *)
Definition succeeded {A : Type} (m : result A) : bool :=
  match m with
  | OK _ => true
  | Raise _ => false
  end.

Lemma returned_spec {A : Type} (d : A) (m : result A) :
  succeeded m = true → m = OK (returned d m).
Proof. destruct m; [reflexivity|discriminate]. Qed.

Lemma returned_pair {A B : Type} (d : A * B) (m : result (A * B)) :
  succeeded m = true → m = OK ((returned d m).1, (returned d m).2).
Proof. destruct m as [[a b]|]; [reflexivity|discriminate]. Qed.

(** One repeat task over wood for every count of the vocabulary. *)
Definition wood_tasks : list string :=
  (λ count, "collect_wood_" +:+ count) <$> COUNT.

Definition wood_blank (script : list nat) : Env (list nat) :=
  mkEnv wood_tasks wood_tasks (replicate (length COUNT) true)
    0%float 0 [] 0 ∅ ∅ ∅ specify_curri_task [] 0 ∅ script.

(** The number of the first step that returned reward 1. *)
Fixpoint first_reward (rewards : list float) : option nat :=
  match rewards with
  | [] => None
  | reward :: rest =>
      if PrimFloat.eqb reward 1 then Some 1 else S <$> first_reward rest
  end.

(** The environment after [reset], the selector having drawn [script]. *)
Definition started (slot : selector) (script : list nat) : Env (list nat) :=
  returned (blank slot script) (reset (counter 0 0) (blank slot script)).

End Demo.

(** * Properties *)

(** ** Tactics *)

(** Case analysis on the first call under a [let*]. *)
Ltac bind_case :=
  match goal with
  | H : context [bind ?m _] |- _ =>
      let E := fresh "E" in destruct m eqn:E; simpl in H; try discriminate H
  | |- context [bind ?m _] =>
      let E := fresh "E" in destruct m eqn:E; simpl
  end.

Ltac inv_OK :=
  repeat match goal with
  | H : OK _ = OK _ |- _ => injection H as H; subst
  | H : (_, _) = (_, _) |- _ => injection H as H; subst
  | H : Raise _ = OK _ |- _ => discriminate H
  | H : OK _ = Raise _ |- _ => discriminate H
  end.

Section Encoder.

Context {G : Type} {RS : RandomState G} {SY : Synonyms}.
Implicit Types (self : Env G) (enc : list nat) (w task : string).

(** The bit the bag-of-words loop leaves for a vocabulary word. *)
Definition indicator (task_words : list string) (w : string) : nat :=
  if bool_decide (w ∈ task_words) then 1 else 0.

(** The trailing [DUMMY_BITS] positions and the positions before them. *)
Definition trailing enc : list nat := drop (length enc - DUMMY_BITS) enc.
Definition leading enc : list nat := take (length enc - DUMMY_BITS) enc.

Lemma bag_of_words_spec task_words (ws : list string) (pre tail : list nat) :
  bag_of_words task_words (length pre) ws (pre ++ replicate (length ws) 0 ++ tail)
  = pre ++ (indicator task_words <$> ws) ++ tail.
Proof.
  revert pre. induction ws as [|w ws IH]; intros pre; [done|].
  cbn [bag_of_words length replicate fmap list_fmap].
  assert (Hset :
    (if bool_decide (w ∈ task_words)
     then <[length pre := 1]> (pre ++ (0 :: replicate (length ws) 0) ++ tail)
     else pre ++ (0 :: replicate (length ws) 0) ++ tail)
    = (pre ++ [indicator task_words w]) ++ replicate (length ws) 0 ++ tail).
  { unfold indicator. destruct (bool_decide (w ∈ task_words)).
    - rewrite insert_app_r_alt by lia. rewrite Nat.sub_diag. simpl.
      by rewrite <- app_assoc.
    - by rewrite <- app_assoc. }
  rewrite Hset.
  replace (S (length pre)) with (length (pre ++ [indicator task_words w]))
    by (rewrite length_app; simpl; lia).
  rewrite IH. by rewrite <- app_assoc.
Qed.

(** The encoding of a real task: the indicator of its words over the
    vocabulary, then [DUMMY_BITS] zeros.  The generator is not touched. *)
Lemma encode_real (task_idx_arg : nat) self task :
  target_achievements self !! task_idx self = Some task →
  _encode_task task_idx_arg self
  = OK ((indicator (split "_" task) <$> ENC_ORDER) ++ replicate DUMMY_BITS 0, self).
Proof.
  intros Hl. unfold _encode_task.
  assert ((task_idx self <? length (target_achievements self)) = true) as ->.
  { apply Nat.ltb_lt. by eapply lookup_lt_Some. }
  unfold list_getitem. rewrite Hl. cbn [bind]. do 2 f_equal.
  rewrite replicate_add.
  exact (bag_of_words_spec (split "_" task) ENC_ORDER [] (replicate DUMMY_BITS 0)).
Qed.

(** The encoding of a decoy: zeros over the vocabulary, then the bits drawn,
    one of which is forced to 1. *)
Lemma encode_decoy (task_idx_arg : nat) self :
  length (target_achievements self) ≤ task_idx self →
  ∃ (bits : list nat) (r : nat) (g : G),
    length bits = DUMMY_BITS ∧ r < DUMMY_BITS ∧
    _encode_task task_idx_arg self
    = OK (replicate (length ENC_ORDER) 0 ++ <[DUMMY_BITS - (r + 1) := 1]> bits,
          set_rng g self).
Proof.
  intros Hge. unfold _encode_task.
  assert ((task_idx self <? length (target_achievements self)) = false) as ->.
  { apply Nat.ltb_ge. lia. }
  pose proof (random_bits_length DUMMY_BITS (rng self)) as Hlen.
  destruct (random_bits DUMMY_BITS (rng self)) as [bits g1]. simpl in Hlen.
  pose proof (random_randint_lt DUMMY_BITS g1) as Hr.
  destruct (random_randint DUMMY_BITS g1) as [r g2]. simpl in Hr.
  assert (r < DUMMY_BITS) as Hr' by (apply Hr; unfold DUMMY_BITS; lia).
  exists bits, r, g2. split; [done|]. split; [done|].
  rewrite length_replicate, Nat.add_sub, take_replicate_add.
  rewrite length_app, length_replicate, Hlen.
  assert ((length ENC_ORDER + DUMMY_BITS <? r + 1) = false) as ->.
  { apply Nat.ltb_ge. lia. }
  do 2 f_equal. rewrite insert_app_r_alt by (rewrite length_replicate; lia).
  rewrite length_replicate. do 2 f_equal. lia.
Qed.

Lemma encode_total (task_idx_arg : nat) self :
  ∃ enc g, _encode_task task_idx_arg self = OK (enc, set_rng g self)
           ∧ length enc = length ENC_ORDER + DUMMY_BITS.
Proof.
  destruct (target_achievements self !! task_idx self) as [task|] eqn:Hl.
  - rewrite (encode_real _ _ _ Hl). eexists _, (rng self).
    split; [by destruct self|].
    rewrite length_app, length_fmap, length_replicate. done.
  - apply lookup_ge_None in Hl.
    destruct (encode_decoy task_idx_arg self Hl) as (bits & r & g & Hb & Hr & ->).
    eexists _, g. split; [done|].
    rewrite length_app, length_replicate, length_insert. lia.
Qed.

Lemma decode_words_zeros (i k : nat) : decode_words i (replicate k 0) = OK [].
Proof. revert i. induction k as [|k IH]; intros i; [done|]. simpl. apply IH. Qed.

Lemma decode_words_indicator task_words (pre ws : list string) (k : nat) :
  ENC_ORDER = pre ++ ws →
  decode_words (length pre) ((indicator task_words <$> ws) ++ replicate k 0)
  = OK (filter (λ w, w ∈ task_words) ws).
Proof.
  revert pre. induction ws as [|w ws IH]; intros pre Hvoc.
  - simpl. apply decode_words_zeros.
  - assert (Hnext : decode_words (S (length pre))
                      ((indicator task_words <$> ws) ++ replicate k 0)
                    = OK (filter (λ w, w ∈ task_words) ws)).
    { replace (S (length pre)) with (length (pre ++ [w]))
        by (rewrite length_app; simpl; lia).
      apply IH. by rewrite <- app_assoc. }
    cbn [fmap list_fmap app decode_words]. unfold indicator at 1.
    destruct (decide (w ∈ task_words)) as [Hin|Hin].
    + rewrite bool_decide_eq_true_2 by done. cbn [Nat.eqb].
      unfold list_getitem. rewrite Hvoc, list_lookup_middle by done.
      cbn [bind]. rewrite Hnext. cbn [bind].
      by rewrite filter_cons_True.
    + rewrite bool_decide_eq_false_2 by done. cbn [Nat.eqb].
      rewrite Hnext. by rewrite filter_cons_False.
Qed.

Lemma string_app_cons (x : ascii) (a b : string) :
  String x a +:+ b = String x (a +:+ b).
Proof. reflexivity. Qed.

Lemma string_app_assoc (a b c : string) : (a +:+ b) +:+ c = a +:+ b +:+ c.
Proof.
  induction a as [|x a IH]; [done|]. rewrite !string_app_cons. by rewrite IH.
Qed.

Lemma string_app_nil_r (a : string) : a +:+ "" = a.
Proof.
  induction a as [|x a IH]; [done|]. rewrite string_app_cons. by rewrite IH.
Qed.

(** A joined string contains each of the words joined. *)
Lemma join_contains (sep : string) (ws : list string) w :
  w ∈ ws → ∃ pre post, join sep ws = pre +:+ w +:+ post.
Proof.
  unfold join. induction ws as [|x xs IH]; intros Hin.
  - by apply elem_of_nil in Hin.
  - apply elem_of_cons in Hin as [->|Hin].
    + exists "". destruct xs as [|y ys].
      * exists "". change (x = x +:+ ""). by rewrite string_app_nil_r.
      * by exists (sep +:+ String.concat sep (y :: ys)).
    + destruct (IH Hin) as (pre & post & Hj).
      destruct xs as [|y ys]; [by apply elem_of_nil in Hin|].
      exists (x +:+ sep +:+ pre), post.
      change (String.concat sep (x :: y :: ys))
        with (x +:+ sep +:+ String.concat sep (y :: ys)).
      rewrite Hj. by rewrite !string_app_assoc.
Qed.

(** The shape of what the encoder returns. *)
Lemma encode_shape (task_idx_arg : nat) self :
  ∃ enc self',
    _encode_task task_idx_arg self = OK (enc, self')
    ∧ length enc = length ENC_ORDER + DUMMY_BITS
    ∧ (if task_idx self <? length (target_achievements self)
       then Forall (λ c, c = 0) (trailing enc)
       else Exists (λ c, c = 1) (trailing enc)
            ∧ Forall (λ c, c = 0) (leading enc)).
Proof.
  destruct (target_achievements self !! task_idx self) as [task|] eqn:Hl.
  - rewrite (encode_real task_idx_arg self task Hl). eexists _, _.
    split; [done|].
    assert (Hlen : length ((indicator (split "_" task) <$> ENC_ORDER)
                           ++ replicate DUMMY_BITS 0)
                   = length ENC_ORDER + DUMMY_BITS).
    { by rewrite length_app, length_fmap, length_replicate. }
    split; [done|].
    apply lookup_lt_Some, Nat.ltb_lt in Hl. rewrite Hl.
    unfold trailing. rewrite Hlen, Nat.add_sub.
    rewrite drop_app_length' by (by rewrite length_fmap).
    apply Forall_replicate. done.
  - apply lookup_ge_None in Hl.
    destruct (encode_decoy task_idx_arg self Hl)
      as (bits & r & g & Hb & Hr & ->).
    eexists _, _. split; [done|].
    assert (Hlen : length (replicate (length ENC_ORDER) 0
                           ++ <[DUMMY_BITS - (r + 1) := 1]> bits)
                   = length ENC_ORDER + DUMMY_BITS).
    { rewrite length_app, length_replicate, length_insert. lia. }
    split; [done|].
    apply Nat.ltb_ge in Hl. rewrite Hl.
    unfold trailing, leading. rewrite Hlen, Nat.add_sub.
    rewrite drop_app_length' by (by rewrite length_replicate).
    rewrite take_app_length' by (by rewrite length_replicate).
    split; [|by apply Forall_replicate].
    apply Exists_exists. exists 1. split; [|done].
    apply list_elem_of_lookup. exists (DUMMY_BITS - (r + 1)).
    apply list_lookup_insert_eq. lia.
Qed.

(** C4: the encoder returns, for every environment, a vector of the
    observation width.  When the active task is a real task, all the trailing
    [DUMMY_BITS] positions are 0.  When it is a decoy, one of the trailing
    positions is 1 and all the positions before them are 0.  Hence no
    encoding of a real task is the encoding of a decoy.  The index is the
    active one, [self.task_idx], which is the argument at every call. *)
Theorem encode_task_subspaces (task_idx_arg : nat) self :
  ∃ enc self',
    _encode_task task_idx_arg self = OK (enc, self')
    ∧ length enc = length ENC_ORDER + DUMMY_BITS
    ∧ (if task_idx self <? length (target_achievements self)
       then Forall (λ c, c = 0) (trailing enc)
       else Exists (λ c, c = 1) (trailing enc)
            ∧ Forall (λ c, c = 0) (leading enc))
    ∧ (∀ (other : Env G) (arg : nat) enc2 other',
         (task_idx self <? length (target_achievements self))
         ≠ (task_idx other <? length (target_achievements other)) →
         _encode_task arg other = OK (enc2, other') →
         enc ≠ enc2).
Proof.
  destruct (encode_shape task_idx_arg self) as (enc & self' & Henc & Hlen & Hkind).
  exists enc, self'. do 3 (split; [done|]).
  intros other arg enc2 other' Hne Henc2 ->.
  destruct (encode_shape arg other) as (enc2' & other'' & Henc2' & _ & Hkind2).
  rewrite Henc2 in Henc2'. inv_OK.
  assert (Hclash : ∀ l : list nat,
    Forall (λ c, c = 0) l → Exists (λ c, c = 1) l → False).
  { intros l Hz (c & Hc & ->)%Exists_exists.
    by specialize (proj1 (Forall_forall _ _) Hz _ Hc). }
  destruct (task_idx self <? length (target_achievements self)),
    (task_idx other <? length (target_achievements other));
    try done; destruct_and?; eauto.
Qed.

(** C5: decoding what the encoder returns.  When the active task is a real
    task, the decoder returns the vocabulary words that occur among the
    underscore-separated tokens of its surface descriptor, in vocabulary
    order and joined by spaces; each such word is contained in the string.
    When it is a decoy, the decoder returns the sentinel. *)
Theorem decode_encode_task (task_idx_arg : nat) self :
  ∃ enc self',
    _encode_task task_idx_arg self = OK (enc, self')
    ∧ match target_achievements self !! task_idx self with
      | Some task =>
          let present := filter (λ w, w ∈ split "_" task) ENC_ORDER in
          _decode_task enc = OK (join " " present)
          ∧ ∀ w, w ∈ ENC_ORDER → w ∈ split "_" task →
              w ∈ present ∧ ∃ pre post, join " " present = pre +:+ w +:+ post
      | None => _decode_task enc = OK "dummy task"
      end.
Proof.
  destruct (target_achievements self !! task_idx self) as [task|] eqn:Hl.
  - rewrite (encode_real task_idx_arg self task Hl). eexists _, _.
    split; [done|]. cbn zeta.
    assert (Hdec : _decode_task ((indicator (split "_" task) <$> ENC_ORDER)
                                 ++ replicate DUMMY_BITS 0)
                   = OK (join " " (filter (λ w, w ∈ split "_" task) ENC_ORDER))).
    { unfold _decode_task.
      rewrite length_app, length_fmap, length_replicate, Nat.add_sub.
      rewrite drop_app_length' by (by rewrite length_fmap).
      assert (existsb (λ c, 0 <? c) (replicate DUMMY_BITS 0) = false) as ->
        by reflexivity.
      pose proof (decode_words_indicator (split "_" task) [] ENC_ORDER
                    DUMMY_BITS eq_refl) as Hw.
      cbn [length] in Hw. rewrite Hw. done. }
    split; [done|]. intros w Hvoc Htok.
    assert (w ∈ filter (λ w, w ∈ split "_" task) ENC_ORDER) as Hin
      by (by apply list_elem_of_filter).
    split; [done|]. by apply join_contains.
  - apply lookup_ge_None in Hl.
    destruct (encode_decoy task_idx_arg self Hl) as (bits & r & g & Hb & Hr & ->).
    eexists _, _. split; [done|].
    unfold _decode_task.
    rewrite length_app, length_replicate, length_insert, Hb, Nat.add_sub.
    rewrite drop_app_length' by (by rewrite length_replicate).
    assert (existsb (λ c, 0 <? c) (<[DUMMY_BITS - (r + 1) := 1]> bits) = true) as ->.
    { apply existsb_exists. exists 1. split; [|done].
      apply list_elem_of_In, list_elem_of_lookup. exists (DUMMY_BITS - (r + 1)).
      apply list_lookup_insert_eq. lia. }
    done.
Qed.

(** C10: the encoder does not read its parameter.  Two calls on the same
    environment return the same encoding and the same environment, whatever
    the arguments.  The branch taken and the words encoded are those of
    [self.task_idx]: when that index is a real task the result is the bag of
    words of its descriptor, and when it is a decoy the result has a trailing
    bit set, in both cases for every argument. *)
Theorem encode_task_ignores_argument (a b : nat) self :
  _encode_task a self = _encode_task b self
  ∧ match target_achievements self !! task_idx self with
    | Some task =>
        _encode_task a self
        = OK ((indicator (split "_" task) <$> ENC_ORDER)
              ++ replicate DUMMY_BITS 0, self)
    | None =>
        ∃ enc self', _encode_task a self = OK (enc, self')
                     ∧ Exists (λ c, c = 1) (trailing enc)
    end.
Proof.
  split; [reflexivity|].
  destruct (target_achievements self !! task_idx self) as [task|] eqn:Hl.
  - by apply encode_real.
  - destruct (encode_shape a self) as (enc & self' & Henc & _ & Hkind).
    apply lookup_ge_None, Nat.ltb_ge in Hl. rewrite Hl in Hkind.
    exists enc, self'. split; [done|]. apply Hkind.
Qed.

End Encoder.

Section Selector.

Context {G : Type} {RS : RandomState G} {SY : Synonyms}.
Implicit Types (self : Env G).

(** What a call of the selector leaves alone, and the step counter it
    zeroes. *)
Record selected self self' : Prop := {
  sel_targets : target_achievements self' = target_achievements self;
  sel_base : target_achievements_base self' = target_achievements_base self;
  sel_rep : isreptask self' = isreptask self;
  sel_progress : task_progress self' = task_progress self;
  sel_past : past_achievements self' = past_achievements self;
  sel_follow : follow_achievements self' = follow_achievements self;
  sel_given : given_achievements self' = given_achievements self;
  sel_unlocked : _unlocked self' = _unlocked self;
  sel_slot : _specify_task self' = _specify_task self;
  sel_steps : task_steps self' = 0
}.

Lemma specify_curri_task_spec self :
  ∃ self', _specify_curri_task self = OK self' ∧ selected self self'
    ∧ task_idx self' < length (target_achievements self) + DUMMY_TASKS
    ∧ eval_id self' = eval_id self ∧ eval_task_seq self' = eval_task_seq self.
Proof.
  unfold _specify_curri_task.
  pose proof (random_choice_lt (length (target_achievements self) + DUMMY_TASKS)
                (rng self)) as Hlt.
  destruct (random_choice _ (rng self)) as [idx g]. simpl in Hlt.
  match goal with
  | |- context [_encode_task ?a ?e] =>
      destruct (encode_total a e) as (enc & g' & -> & _)
  end.
  cbn [bind]. eexists. split; [done|]. destruct self; simpl in *.
  split; [by constructor|]. split; [|done].
  apply Hlt. unfold DUMMY_TASKS, DUMMY_BITS. simpl. lia.
Qed.

(** One call of the evaluation selector: it takes the index under the
    cursor, and either advances the cursor or, at the end of the array,
    returns it to 0 and shuffles the array. *)
Lemma specify_eval_task_spec self idx :
  eval_task_seq self !! eval_id self = Some idx →
  length (eval_task_seq self) = length (target_achievements self) →
  ∃ self', _specify_eval_task self = OK self' ∧ selected self self'
    ∧ task_idx self' = idx
    ∧ ((eval_id self + 1 < length (target_achievements self)
        ∧ eval_id self' = eval_id self + 1
        ∧ eval_task_seq self' = eval_task_seq self)
       ∨ (eval_id self + 1 = length (target_achievements self)
          ∧ eval_id self' = 0
          ∧ eval_task_seq self' ≡ₚ eval_task_seq self)).
Proof.
  intros Hidx Hlen. unfold _specify_eval_task, list_getitem. rewrite Hidx.
  cbn [bind]. pose proof (lookup_lt_Some _ _ _ Hidx) as Hlt. rewrite Hlen in Hlt.
  destruct self as [ta tb rep prog ti te ts past fol giv slot seq0 eid unl g].
  cbn [target_achievements eval_id eval_task_seq set_task_idx set_eval_id rng
       target_achievements_base isreptask task_progress task_idx task_enc
       task_steps past_achievements follow_achievements given_achievements
       _specify_task _unlocked] in *.
  destruct (length ta <=? eid + 1) eqn:Hwrap.
  - apply Nat.leb_le in Hwrap. assert (eid + 1 = length ta) as Heq by lia.
    unfold py_mod. rewrite <- Heq. replace (eid + 1) with (S eid) by lia.
    rewrite Nat.Div0.mod_same. cbn [bind].
    pose proof (random_shuffle_perm seq0 g) as Hperm.
    cbn [set_eval_id set_eval_task_seq set_rng eval_task_seq rng
         target_achievements eval_id target_achievements_base isreptask
         task_progress task_idx task_enc task_steps past_achievements
         follow_achievements given_achievements _specify_task _unlocked].
    destruct (random_shuffle seq0 g) as [shuffled g1]. simpl in Hperm.
    cbn [bind].
    match goal with
    | |- context [_encode_task ?a ?e] =>
        destruct (encode_total a e) as (enc & g' & -> & _)
    end.
    cbn [bind]. eexists. split; [done|]. simpl.
    split; [by constructor|]. split; [done|]. right. split; [lia|]. done.
  - apply Nat.leb_gt in Hwrap. cbn [bind].
    match goal with
    | |- context [_encode_task ?a ?e] =>
        destruct (encode_total a e) as (enc & g' & -> & _)
    end.
    cbn [bind]. eexists. split; [done|]. simpl.
    split; [by constructor|]. split; [done|]. left. split; [lia|]. done.
Qed.

(** From cursor position [eval_id], the calls that remain in the pass take
    the rest of the array in order, and leave a reshuffled array with the
    cursor at 0. *)
Lemma eval_pass_from (m : nat) self :
  _specify_task self = specify_eval_task →
  length (eval_task_seq self) = length (target_achievements self) →
  eval_id self + S m = length (target_achievements self) →
  ∃ self',
    select_many (S m) self = OK (drop (eval_id self) (eval_task_seq self), self')
    ∧ _specify_task self' = specify_eval_task
    ∧ target_achievements self' = target_achievements self
    ∧ eval_id self' = 0
    ∧ eval_task_seq self' ≡ₚ eval_task_seq self.
Proof.
  revert self. induction m as [|m IH]; intros self Hmode Hlen Hpos.
  - destruct (lookup_lt_is_Some_2 (eval_task_seq self) (eval_id self))
      as [idx Hidx]; [lia|].
    destruct (specify_eval_task_spec self idx Hidx Hlen)
      as (self' & Hcall & Hsel & Hti & Hcur).
    destruct Hcur as [(Hlt & _)|(_ & Hid & Hperm)]; [lia|].
    exists self'. cbn [select_many]. unfold call_specify_task.
    rewrite Hmode, Hcall. cbn [bind]. rewrite Hti.
    rewrite (drop_S _ _ _ Hidx), drop_ge by lia.
    split; [done|]. destruct Hsel. rewrite sel_slot0. done.
  - destruct (lookup_lt_is_Some_2 (eval_task_seq self) (eval_id self))
      as [idx Hidx]; [lia|].
    destruct (specify_eval_task_spec self idx Hidx Hlen)
      as (self1 & Hcall & Hsel & Hti & Hcur).
    destruct Hcur as [(Hlt & Hid & Hseq)|(Heq & _)]; [|lia].
    destruct Hsel.
    destruct (IH self1) as (self' & Hrest & Hmode' & Hta & Hid' & Hperm).
    { by rewrite sel_slot0. }
    { by rewrite Hseq, sel_targets0. }
    { rewrite Hid, sel_targets0. lia. }
    exists self'. change (select_many (S (S m)) self)
      with (let* s := call_specify_task self in
            let* (chosen, s') := select_many (S m) s in
            OK (task_idx s :: chosen, s')).
    unfold call_specify_task at 1. rewrite Hmode, Hcall. cbn [bind].
    rewrite Hrest. cbn [bind]. rewrite Hti, Hid, Hseq.
    rewrite (drop_S _ _ _ Hidx). replace (eval_id self + 1) with (S (eval_id self)) by lia.
    split; [done|]. split; [done|]. split; [congruence|]. split; [done|].
    by rewrite Hperm, Hseq.
Qed.

(** Switching to evaluation leaves the cursor at the start of a shuffled
    array of all the real task indices. *)
Lemma set_curriculum_eval self :
  let self' := set_curriculum false self in
  _specify_task self' = specify_eval_task
  ∧ eval_id self' = 0
  ∧ eval_task_seq self' ≡ₚ seq 0 (length (target_achievements self'))
  ∧ target_achievements self' = target_achievements self.
Proof.
  unfold set_curriculum.
  pose proof (random_shuffle_perm (seq 0 (length (target_achievements self)))
                (rng self)) as Hperm.
  destruct (random_shuffle _ (rng self)) as [shuffled g]. simpl in *. done.
Qed.

(** C2, as amended: in evaluation mode, the [len(target_achievements)]
    calls of the selector that make up a pass, that is, those that start
    with the cursor at 0 (right after [set_curriculum(train=False)] or after
    the cursor has wrapped), select every real task index exactly once.  The
    pass ends with the cursor at 0 again and a shuffled array, so the next
    pass is again such a pass. *)
Theorem eval_pass_selects_each_task_once self :
  _specify_task self = specify_eval_task →
  eval_id self = 0 →
  eval_task_seq self ≡ₚ seq 0 (length (target_achievements self)) →
  ∃ chosen self',
    select_many (length (target_achievements self)) self = OK (chosen, self')
    ∧ chosen ≡ₚ seq 0 (length (target_achievements self))
    ∧ NoDup chosen
    ∧ (∀ i, i ∈ chosen ↔ i < length (target_achievements self))
    ∧ _specify_task self' = specify_eval_task
    ∧ eval_id self' = 0
    ∧ eval_task_seq self' ≡ₚ seq 0 (length (target_achievements self')).
Proof.
  intros Hmode Hid Hperm.
  assert (Hfacts : ∀ chosen : list nat,
    chosen ≡ₚ seq 0 (length (target_achievements self)) →
    NoDup chosen ∧ (∀ i, i ∈ chosen ↔ i < length (target_achievements self))).
  { intros chosen Hc. split.
    - rewrite Hc. apply NoDup_seq.
    - intros i. rewrite Hc, elem_of_seq. lia. }
  destruct (length (target_achievements self)) as [|m] eqn:Hn.
  - exists [], self. cbn [select_many]. rewrite Hn.
    split; [done|]. split; [done|]. split; [apply NoDup_nil_2|].
    split; [apply Hfacts; done|]. done.
  - assert (Hlen : length (eval_task_seq self) = length (target_achievements self)).
    { rewrite Hn, Hperm. apply length_seq. }
    destruct (eval_pass_from m self Hmode Hlen) as (self' & Hrun & Hm & Hta & Hi & Hp).
    { rewrite Hid, Hn. done. }
    rewrite Hid, drop_0 in Hrun.
    exists (eval_task_seq self), self'. split; [done|]. split; [done|].
    destruct (Hfacts _ Hperm) as [Hnd Hin]. split; [done|]. split; [done|].
    split; [done|]. split; [done|]. by rewrite Hp, Hta, Hn.
Qed.

End Selector.

Section Reward.

Context {G : Type} {RS : RandomState G} {SY : Synonyms}.
Implicit Types (self : Env G) (achievements : gmap string Z).

(** The key of [given_achievements] that belongs to the active task. *)
Definition given_slot self : string :=
  match target_achievements self !! task_idx self with
  | Some name => name
  | None => dummy_key (task_idx self - length (target_achievements self))
  end.

(** [sum(d.values())] *)
Definition total (d : gmap string nat) : nat :=
  sum_list_with snd (map_to_list d).

(** The entry of the achievement counter that the step compares for a task
    with base descriptor [base]. *)
Definition watched (base : string) (rep : bool) : string :=
  if rep then join "_" (removelast (split "_"%char base)) else base.

(** A task was assigned between [self] and [self']: the slot of the task
    active in [self'] went up by one, no other slot moved, and the step
    counter is 0. *)
Definition assigned self self' : Prop :=
  ∃ c, given_achievements self !! given_slot self' = Some c
       ∧ given_achievements self'
         = <[given_slot self' := c + 1]> (given_achievements self)
       ∧ task_steps self' = 0
       ∧ task_progress self' = 0%float.

(** No task was assigned between [self] and [self']. *)
Definition waiting self self' : Prop :=
  task_steps self' = task_steps self + 1
  ∧ task_steps self' ≤ 300
  ∧ task_idx self' = task_idx self
  ∧ given_achievements self' = given_achievements self
  ∧ follow_achievements self' = follow_achievements self.

Lemma total_incr (d : gmap string nat) (k : string) (c : nat) :
  d !! k = Some c → total (<[k := c + 1]> d) = total d + 1.
Proof.
  intros Hk. unfold total.
  rewrite <- (insert_delete_eq d k (c + 1)).
  rewrite map_to_list_insert by apply lookup_delete_eq.
  rewrite <- (insert_delete_id d k c Hk) at 2.
  rewrite map_to_list_insert by apply lookup_delete_eq.
  simpl. lia.
Qed.

Lemma update_given_ach_spec self self' :
  update_given_ach self = OK self' →
  ∃ c, given_achievements self !! given_slot self = Some c
       ∧ self' = set_given_achievements
                   (<[given_slot self := c + 1]> (given_achievements self)) self.
Proof.
  unfold update_given_ach, given_slot, incr_item, list_getitem, getitem.
  destruct (task_idx self <? length (target_achievements self)) eqn:Hreal.
  - apply Nat.ltb_lt, lookup_lt_is_Some_2 in Hreal as [name Hname].
    rewrite Hname. cbn [bind].
    destruct (given_achievements self !! name) as [c|]; cbn [bind]; [|done].
    intros [= <-]. by exists c.
  - apply Nat.ltb_ge, lookup_ge_None_2 in Hreal. rewrite Hreal.
    destruct (given_achievements self !! _) as [c|]; cbn [bind]; [|done].
    intros [= <-]. by exists c.
Qed.

Lemma update_given_ach_total self c :
  given_achievements self !! given_slot self = Some c →
  update_given_ach self
  = OK (set_given_achievements
          (<[given_slot self := c + 1]> (given_achievements self)) self).
Proof.
  unfold update_given_ach, given_slot, incr_item, list_getitem, getitem.
  destruct (task_idx self <? length (target_achievements self)) eqn:Hreal.
  - apply Nat.ltb_lt, lookup_lt_is_Some_2 in Hreal as [name Hname].
    rewrite Hname. cbn [bind]. by intros ->.
  - apply Nat.ltb_ge, lookup_ge_None_2 in Hreal. rewrite Hreal. by intros ->.
Qed.

Lemma call_specify_task_selected self self' :
  call_specify_task self = OK self' → selected self self'.
Proof.
  unfold call_specify_task. destruct (_specify_task self) eqn:Hmode.
  - destruct (specify_curri_task_spec self) as (s & -> & Hsel & _).
    by intros [= <-].
  - unfold _specify_eval_task, list_getitem.
    destruct (eval_task_seq self !! eval_id self) as [idx|]; [|done].
    cbn [bind]. unfold py_mod.
    destruct self as [ta tb rep prog ti te ts past fol giv slot seq0 eid unl g].
    cbn [target_achievements eval_id eval_task_seq set_task_idx set_eval_id rng
         target_achievements_base isreptask task_progress task_idx task_enc
         task_steps past_achievements follow_achievements given_achievements
         _specify_task _unlocked] in *.
    destruct (length ta <=? eid + 1).
    + destruct (length ta); [done|]. cbn [bind].
      cbn [set_eval_id set_eval_task_seq set_rng eval_task_seq rng
           target_achievements eval_id target_achievements_base isreptask
           task_progress task_idx task_enc task_steps past_achievements
           follow_achievements given_achievements _specify_task _unlocked].
      destruct (random_shuffle seq0 g) as [shuffled g1]. cbn [bind].
      match goal with
      | |- context [_encode_task ?a ?e] =>
          destruct (encode_total a e) as (enc & g' & -> & _)
      end.
      cbn [bind]. intros [= <-]. by constructor.
    + cbn [bind].
      match goal with
      | |- context [_encode_task ?a ?e] =>
          destruct (encode_total a e) as (enc & g' & -> & _)
      end.
      cbn [bind]. intros [= <-]. by constructor.
Qed.

(** The three lines [self._specify_task(); self.update_given_ach();
    self.task_progress = 0], which every assignment after [reset] consists
    of. *)
Lemma reassign_spec self s1 s2 :
  call_specify_task self = OK s1 →
  update_given_ach s1 = OK s2 →
  let s3 := set_task_progress 0 s2 in
  assigned self s3
  ∧ target_achievements s3 = target_achievements self
  ∧ target_achievements_base s3 = target_achievements_base self
  ∧ isreptask s3 = isreptask self
  ∧ past_achievements s3 = past_achievements self
  ∧ follow_achievements s3 = follow_achievements self
  ∧ _specify_task s3 = _specify_task self
  ∧ task_idx s3 = task_idx s1.
Proof.
  intros Hsel Hupd. apply call_specify_task_selected in Hsel as [].
  apply update_given_ach_spec in Hupd as (c & Hc & ->).
  destruct s1; simpl in *; subst. unfold assigned, given_slot in *. simpl.
  split; [|done]. by exists c.
Qed.

(** Case analysis of a step that returns: the snapshot is the counter of the
    step, and either no task was assigned and the reward is 0, or the task
    timed out and the reward is 0, or the task was completed and the reward
    is 1. *)
Ltac exec :=
  repeat match goal with
  | H : bind ?m _ = _ |- _ =>
      let E := fresh "E" in
      destruct m as [?|?] eqn:E; cbn [bind] in H; [|discriminate H]
  | H : (if ?c then _ else _) = _ |- _ =>
      let C := fresh "C" in destruct c eqn:C
  | x : (_ * _)%type |- _ => destruct x
  | H : OK _ = OK _ |- _ => injection H as H; subst
  | H : (_, _) = (_, _) |- _ => injection H as H; subst
  | H : Raise _ = OK _ |- _ => discriminate H
  end.

Lemma _get_reward_cases achievements self reward self' :
  _get_reward achievements self = OK (reward, self') →
  past_achievements self' = achievements
  ∧ target_achievements self' = target_achievements self
  ∧ ((reward = 0%float ∧ waiting self self')
     ∨ (reward = 0%float ∧ 300 < task_steps self + 1 ∧ assigned self self'
        ∧ follow_achievements self' = follow_achievements self)
     ∨ (reward = 1%float ∧ assigned self self')).
Proof.
  intros Hstep. unfold _get_reward in Hstep.
  exec.
  all: repeat match goal with
       | Hs : call_specify_task ?x = OK ?s1,
         Hu : update_given_ach ?s1 = OK ?s2 |- _ =>
           destruct (reassign_spec x s1 s2 Hs Hu)
             as (Hassigned & ? & ? & ? & ? & ? & ? & ?);
           clear Hs Hu
       end.
  all: unfold assigned, waiting, given_slot in *; simpl in *.
  all: try congruence.
  all: repeat match goal with
       | C : (_ <? _) = true |- _ => apply Nat.ltb_lt in C
       | C : (_ <? _) = false |- _ => apply Nat.ltb_ge in C
       | Ha : ∃ c : nat, _ |- _ => destruct Ha as (c & Hc & Hgiven & Hsteps & _)
       end.
  all: split; [done|]; split; [congruence|].
  all: first
    [ solve [left; repeat split; first [done | lia | congruence]]
    | solve [right; left; split; [done|]; split; [lia|];
             split; [|congruence]; exists c; repeat split;
             first [done | congruence]]
    | solve [right; right; split; [done|]; exists c; repeat split;
             first [done | congruence]]
    | idtac ].
Qed.

(** The environment a step starts from, in a run from [self] whose steps so
    far returned [results]. *)
Definition state_before self (results : list (float * Env G)) (k : nat)
    : Env G :=
  match k with
  | O => self
  | S j => default self (snd <$> results !! j)
  end.

(** The environment a run from [self] ends in. *)
Definition final self (results : list (float * Env G)) : Env G :=
  state_before self results (length results).

Lemma run_length steps self results :
  run steps self = OK results → length results = length steps.
Proof.
  revert self results. induction steps as [|a steps IH]; intros self results Hrun.
  - cbn [run] in Hrun. by inv_OK.
  - cbn [run] in Hrun. exec. simpl. f_equal. by eapply IH.
Qed.

(** Step [k] of a run is [_get_reward] on the counter of that step, from the
    environment the step before left. *)
Lemma run_lookup steps self results k achievements :
  run steps self = OK results →
  steps !! k = Some achievements →
  ∃ reward s, results !! k = Some (reward, s)
    ∧ _get_reward achievements (state_before self results k) = OK (reward, s).
Proof.
  revert self results k.
  induction steps as [|a steps IH]; intros self results k Hrun Hk; [done|].
  cbn [run] in Hrun. exec. destruct k as [|k].
  - simpl in Hk. inv_OK. injection Hk as ->. by eexists _, _.
  - simpl in Hk.
    destruct (IH _ _ k E0 Hk) as (r & s & Hres & Hstep).
    exists r, s. split; [done|].
    destruct k as [|k]; [done|].
    assert (is_Some (a0 !! k)) as [[r' s'] Hprev].
    { apply lookup_lt_is_Some_2. apply lookup_lt_Some in Hres. lia. }
    cbn [state_before] in *. rewrite lookup_cons. rewrite Hprev in *. done.
Qed.

(** C6: the reward of a step that returns is exactly [0.0] or exactly [1.0],
    whatever the achievement counter of the step holds, so also when several
    achievements, or several units of one, were gained in the step. *)
Theorem reward_is_zero_or_one achievements self reward self' :
  _get_reward achievements self = OK (reward, self') →
  reward = 0%float ∨ reward = 1%float.
Proof.
  intros Hstep. apply _get_reward_cases in Hstep as (_ & _ & Hcases).
  destruct Hcases as [[-> _]|[[-> _]|[-> _]]]; auto.
Qed.

(** C7: when the active task is a real task and the entry of the achievement
    counter that the step compares (the base descriptor, or for a repeat
    task the base descriptor without its trailing token) is not a key of the
    counter, the step raises [KeyError] for that key. *)
Theorem missing_achievement_key_is_fatal achievements self task base rep :
  target_achievements self !! task_idx self = Some task →
  target_achievements_base self !! task_idx self = Some base →
  isreptask self !! task_idx self = Some rep →
  achievements !! watched base rep = None →
  _get_reward achievements self = Raise (KeyError (watched base rep)).
Proof.
  intros Htask Hbase Hrep Hmissing. unfold _get_reward, list_getitem.
  cbn [task_idx target_achievements target_achievements_base isreptask
       set_unlocked].
  assert ((task_idx self <? length (target_achievements self)) = true) as ->.
  { apply Nat.ltb_lt. by eapply lookup_lt_Some. }
  rewrite Htask, Hbase, Hrep. cbn [bind].
  unfold watched in Hmissing. unfold counter_getitem, getitem.
  destruct rep; rewrite Hmissing; reflexivity.
Qed.

(** C9: every step that returns, whichever path it took, leaves
    [past_achievements] equal to the achievement counter of that step.  In a
    run, step [k] is therefore computed from an environment whose snapshot
    is the counter of step [k - 1], also when step [k - 1] assigned a new
    task. *)
Theorem snapshot_replaced_every_step steps self results :
  run steps self = OK results →
  ∀ k achievements, steps !! k = Some achievements →
    ∃ reward s,
      results !! k = Some (reward, s)
      ∧ _get_reward achievements (state_before self results k) = OK (reward, s)
      ∧ past_achievements s = achievements
      ∧ (∀ j, k = S j →
           Some (past_achievements (state_before self results k)) = steps !! j).
Proof.
  intros Hrun k achievements Hk.
  destruct (run_lookup _ _ _ _ _ Hrun Hk) as (r & s & Hres & Hstep).
  exists r, s. split; [done|]. split; [done|].
  split; [by apply _get_reward_cases in Hstep as (? & _)|].
  intros j ->.
  assert (is_Some (steps !! j)) as [a' Hj].
  { apply lookup_lt_is_Some_2. apply lookup_lt_Some in Hk. lia. }
  destruct (run_lookup _ _ _ _ _ Hrun Hj) as (r' & s' & Hres' & Hstep').
  cbn [state_before]. rewrite Hres'. simpl. rewrite Hj. f_equal.
  by apply _get_reward_cases in Hstep' as (? & _).
Qed.


(** The steps of a run after which the step counter is 0.  The selector
    zeroes the counter and a step that assigns no task increments it, so
    these are the steps that assigned a task. *)
Definition assignments (results : list (float * Env G)) : nat :=
  length (filter (λ rs, task_steps rs.2 = 0) results).

Lemma final_cons self r s (results : list (float * Env G)) :
  final self ((r, s) :: results) = final s results.
Proof.
  unfold final. cbn [length state_before]. destruct results as [|x xs]; [done|].
  cbn [length state_before]. rewrite lookup_cons.
  assert (is_Some ((x :: xs) !! length xs)) as [y Hy].
  { apply lookup_lt_is_Some_2. simpl. lia. }
  by rewrite Hy.
Qed.

Lemma total_zero (d : gmap string nat) :
  (∀ k v, d !! k = Some v → v = 0) → total d = 0.
Proof.
  intros Hz. unfold total.
  assert (Forall (λ kv, kv.2 = 0) (map_to_list d)) as Hall.
  { apply Forall_forall. intros [k v] Hin. apply elem_of_map_to_list in Hin.
    simpl. by eapply Hz. }
  induction Hall as [|x l Hx _ IH]; [done|]. simpl. lia.
Qed.

Lemma step_given achievements self reward self' :
  _get_reward achievements self = OK (reward, self') →
  (task_steps self' ≠ 0 ∧ given_achievements self' = given_achievements self)
  ∨ (task_steps self' = 0 ∧ assigned self self').
Proof.
  intros Hstep. apply _get_reward_cases in Hstep as (_ & _ & Hcases).
  destruct Hcases as [[_ Hw]|[(_ & _ & Ha & _)|[_ Ha]]].
  - left. destruct Hw as (Hs & _ & _ & Hg & _). split; [lia|done].
  - right. split; [|done]. by destruct Ha as (c & _ & _ & ? & _).
  - right. split; [|done]. by destruct Ha as (c & _ & _ & ? & _).
Qed.

Lemma run_total steps self results :
  run steps self = OK results →
  total (given_achievements (final self results))
  = total (given_achievements self) + assignments results.
Proof.
  revert self results. induction steps as [|a steps IH]; intros self results Hrun.
  - cbn [run] in Hrun. inv_OK. unfold final, assignments. simpl. lia.
  - cbn [run] in Hrun. exec. rename e into s1, a0 into rest.
    rewrite final_cons, (IH _ _ E0).
    unfold assignments. rewrite filter_cons. cbn [snd].
    destruct (step_given _ _ _ _ E) as [[Hne Hg]|[Hz Ha]].
    + rewrite decide_False by done. by rewrite Hg.
    + rewrite decide_True by done. destruct Ha as (c & Hc & -> & _).
      rewrite (total_incr _ _ _ Hc). simpl. lia.
Qed.

(** The dictionary that [reset] builds before it assigns the first task. *)
Lemma reset_zeros (names : list string) (k : string) (v : nat) :
  ((list_to_map ((λ i, (dummy_key i, 0)) <$> seq 0 DUMMY_TASKS) : gmap string nat)
   ∪ list_to_map ((λ name, (name, 0)) <$> names)) !! k = Some v →
  v = 0.
Proof.
  intros [Hl|[_ Hr]]%lookup_union_Some_raw.
  - apply elem_of_list_to_map_2, list_elem_of_fmap in Hl as (i & [= _ ->] & _).
    done.
  - apply elem_of_list_to_map_2, list_elem_of_fmap in Hr as (i & [= _ ->] & _).
    done.
Qed.

(** C8: every assignment increments [given_achievements] by one at the slot
    of the newly active task and nowhere else.  [reset] starts from counts
    that are all 0 and assigns once.  Each step of a run that returns either
    assigns no task, and then leaves the counts alone, or assigns one (on
    completion of a task, repeat or not, or on the timeout), and then adds
    one at the slot of the task it made active.  Hence the counts of the
    environment at the end of the run sum to the number of assignments since
    [reset], the one of [reset] included. *)
Theorem given_counts_count_assignments
    (player_achievements : gmap string Z) (self0 self : Env G)
    (steps : list (gmap string Z)) (results : list (float * Env G)) :
  reset player_achievements self0 = OK self →
  run steps self = OK results →
  (∃ zeros : gmap string nat,
      (∀ k v, zeros !! k = Some v → v = 0)
      ∧ given_achievements self = <[given_slot self := 1]> zeros)
  ∧ (∀ k reward s, results !! k = Some (reward, s) →
       let before := state_before self results k in
       (task_steps s ≠ 0
        ∧ given_achievements s = given_achievements before)
       ∨ (task_steps s = 0
          ∧ ∃ c, given_achievements before !! given_slot s = Some c
                 ∧ given_achievements s
                   = <[given_slot s := c + 1]> (given_achievements before)))
  ∧ total (given_achievements (final self results)) = 1 + assignments results.
Proof.
  intros Hreset Hrun.
  assert (Hfirst : ∃ zeros : gmap string nat,
    (∀ k v, zeros !! k = Some v → v = 0)
    ∧ given_achievements self = <[given_slot self := 1]> zeros).
  { unfold reset in Hreset. exec.
    destruct (reassign_spec _ _ _ E E0) as (Ha & _).
    destruct Ha as (c & Hc & Hg & _).
    cbn [given_achievements set_given_achievements set_follow_achievements
         set_past_achievements set_unlocked target_achievements] in Hc, Hg.
    eexists. split; [apply reset_zeros|].
    rewrite Hg. by rewrite (reset_zeros _ _ _ Hc). }
  split; [done|]. split.
  - intros k reward s Hres before.
    assert (is_Some (steps !! k)) as [a Ha].
    { apply lookup_lt_is_Some_2. rewrite <- (run_length _ _ _ Hrun).
      by eapply lookup_lt_Some. }
    destruct (run_lookup _ _ _ _ _ Hrun Ha) as (r' & s' & Hres' & Hstep).
    rewrite Hres in Hres'. inv_OK. injection Hres' as <- <-.
    destruct (step_given _ _ _ _ Hstep) as [?|[Hz Has]]; [by left|].
    right. split; [done|]. destruct Has as (c & ? & ? & _). by exists c.
  - rewrite (run_total _ _ _ Hrun).
    destruct Hfirst as (zeros & Hz & ->).
    destruct (zeros !! given_slot self) as [c|] eqn:Hc.
    + rewrite (Hz _ _ Hc) in Hc.
      pose proof (total_incr zeros _ 0 Hc) as Ht. simpl in Ht.
      rewrite Ht, (total_zero _ Hz). lia.
    + unfold total. rewrite map_to_list_insert by done. simpl.
      fold (total zeros). rewrite (total_zero _ Hz). lia.
Qed.

(** *** The timeout *)

(** The step sees no gain for the active task: the task is a decoy, or the
    entry it is compared on exists in both counters and has not grown. *)
Definition no_delta self (past achievements : gmap string Z) : bool :=
  if task_idx self <? length (target_achievements self) then
    match target_achievements self !! task_idx self,
          target_achievements_base self !! task_idx self,
          isreptask self !! task_idx self with
    | Some _, Some base, Some rep =>
        match achievements !! watched base rep, past !! watched base rep with
        | Some cur, Some old => negb (0 <? cur - old)%Z
        | _, _ => false
        end
    | _, _, _ => false
    end
  else true.

(** No step of [steps] sees a gain for the task active in [self], the first
    compared with [past] and each other with the one before it. *)
Fixpoint quiet self (past : gmap string Z) (steps : list (gmap string Z))
    : bool :=
  match steps with
  | [] => true
  | achievements :: rest =>
      no_delta self past achievements && quiet self achievements rest
  end.

(** The evaluation selector can run: the cursor is inside an array that
    holds the real task indices. *)
Definition eval_ready self : Prop :=
  _specify_task self = specify_eval_task →
  eval_id self < length (target_achievements self)
  ∧ eval_task_seq self ≡ₚ seq 0 (length (target_achievements self)).

(** [given_achievements] has the keys that [reset] gives it. *)
Definition given_ready self : Prop :=
  (∀ name, name ∈ target_achievements self →
     is_Some (given_achievements self !! name))
  ∧ (∀ i, i < DUMMY_TASKS → is_Some (given_achievements self !! dummy_key i)).

(** The environment in the middle of a step that found the task not
    completed: new achievements noted, step counter incremented. *)
Definition ticked achievements self : Env G :=
  set_task_steps (task_steps self + 1)
    (set_unlocked
       (_unlocked self
        ∪ dom (filter (λ kv, (0 < kv.2)%Z) achievements) ∖ _unlocked self)
       self).

(** [s] differs from [self] at most in the step counter, the snapshot and
    the set of unlocked achievements. *)
Record same_task self s : Prop := {
  st_targets : target_achievements s = target_achievements self;
  st_base : target_achievements_base s = target_achievements_base self;
  st_rep : isreptask s = isreptask self;
  st_progress : task_progress s = task_progress self;
  st_idx : task_idx s = task_idx self;
  st_enc : task_enc s = task_enc self;
  st_follow : follow_achievements s = follow_achievements self;
  st_given : given_achievements s = given_achievements self;
  st_slot : _specify_task s = _specify_task self;
  st_seq : eval_task_seq s = eval_task_seq self;
  st_id : eval_id s = eval_id self;
  st_rng : rng s = rng self
}.

Lemma same_task_refl self : same_task self self.
Proof. by constructor. Qed.

Lemma same_task_trans self s1 s2 :
  same_task self s1 → same_task s1 s2 → same_task self s2.
Proof. intros [] []. constructor; congruence. Qed.

Lemma no_delta_same_task self s past achievements :
  same_task self s → no_delta s past achievements = no_delta self past achievements.
Proof.
  intros Hs. unfold no_delta.
  by rewrite (st_targets _ _ Hs), (st_base _ _ Hs), (st_rep _ _ Hs),
    (st_idx _ _ Hs).
Qed.

Lemma quiet_same_task self s past steps :
  same_task self s → quiet s past steps = quiet self past steps.
Proof.
  intros Hs. revert past. induction steps as [|a steps IH]; intros past; [done|].
  cbn [quiet]. by rewrite IH, (no_delta_same_task _ _ _ _ Hs).
Qed.

(** A step without a gain, for a task whose progress is below 1. *)
Lemma quiet_step achievements self :
  no_delta self (past_achievements self) achievements = true →
  PrimFloat.leb 1 (task_progress self) = false →
  _get_reward achievements self
  = if 300 <? task_steps self + 1 then
      let* s := call_specify_task (ticked achievements self) in
      let* s := update_given_ach s in
      OK (0%float, set_past_achievements achievements (set_task_progress 0 s))
    else OK (0%float, set_past_achievements achievements (ticked achievements self)).
Proof.
  intros Hquiet Hprog. unfold no_delta in Hquiet. unfold _get_reward, ticked.
  cbn [task_idx target_achievements target_achievements_base isreptask
       set_unlocked past_achievements task_progress set_task_steps task_steps].
  destruct (task_idx self <? length (target_achievements self)).
  - unfold list_getitem.
    destruct (target_achievements self !! task_idx self) as [task|]; [|done].
    destruct (target_achievements_base self !! task_idx self) as [base|];
      [|done].
    destruct (isreptask self !! task_idx self) as [rep|]; [|done].
    cbn [bind]. unfold counter_getitem, getitem.
    destruct rep; unfold watched in Hquiet; cbv iota in Hquiet.
    + destruct (achievements !! _) as [cur|]; [|done].
      destruct (past_achievements self !! _) as [old|]; [|done].
      apply negb_true_iff in Hquiet. cbn [bind]. rewrite Hquiet. cbn [bind].
      cbn [task_progress task_steps set_unlocked]. rewrite Hprog.
      cbn [bind task_progress task_steps set_unlocked].
      destruct (300 <? task_steps self + 1); [|done].
      destruct (call_specify_task _) as [s1|]; [|done]. cbn [bind].
      by destruct (update_given_ach s1).
    + destruct (achievements !! _) as [cur|]; [|done].
      destruct (past_achievements self !! _) as [old|]; [|done].
      apply negb_true_iff in Hquiet. cbn [bind]. rewrite Hquiet.
      cbn [bind task_progress task_steps set_unlocked].
      destruct (300 <? task_steps self + 1); [|done].
      destruct (call_specify_task _) as [s1|]; [|done]. cbn [bind].
      by destruct (update_given_ach s1).
  - cbn [bind task_progress task_steps set_unlocked].
    destruct (300 <? task_steps self + 1); [|done].
    destruct (call_specify_task _) as [s1|]; [|done]. cbn [bind].
    by destruct (update_given_ach s1).
Qed.

Lemma run_app steps more self results :
  run steps self = OK results →
  run (steps ++ more) self
  = let* rest := run more (final self results) in OK (results ++ rest).
Proof.
  revert self results. induction steps as [|a steps IH]; intros self results Hrun.
  - cbn [run] in Hrun. inv_OK. simpl. unfold final. simpl.
    by destruct (run more self).
  - cbn [run] in Hrun. exec. cbn [app run]. rewrite E. cbn [bind].
    rewrite (IH _ _ E0), final_cons.
    by destruct (run more (final e a0)).
Qed.

(** Steps without a gain, as long as the step counter stays within the
    threshold: each returns reward 0 and leaves the task as it is. *)
Lemma quiet_prefix steps more self :
  quiet self (past_achievements self) (steps ++ more) = true →
  PrimFloat.leb 1 (task_progress self) = false →
  task_steps self + length steps ≤ 300 →
  ∃ results,
    run steps self = OK results
    ∧ length results = length steps
    ∧ same_task self (final self results)
    ∧ task_steps (final self results) = task_steps self + length steps
    ∧ quiet self (past_achievements (final self results)) more = true
    ∧ (∀ k r s, results !! k = Some (r, s) →
         r = 0%float ∧ same_task self s ∧ task_steps s = task_steps self + S k).
Proof.
  revert self. induction steps as [|a steps IH]; intros self Hquiet Hprog Hle.
  - exists []. unfold final. simpl. rewrite Nat.add_0_r.
    repeat split; first [done | apply same_task_refl].
  - cbn [app quiet] in Hquiet. apply andb_true_iff in Hquiet as [Ha Hrest].
    cbn [length] in Hle.
    pose proof (quiet_step a self Ha Hprog) as Hstep.
    assert ((300 <? task_steps self + 1) = false) as Hno
      by (apply Nat.ltb_ge; lia).
    rewrite Hno in Hstep.
    set (s1 := set_past_achievements a (ticked a self)) in *.
    assert (same_task self s1) as Hs1 by (by constructor).
    destruct (IH s1) as (results & Hrun & Hlen & Hsame & Hsteps & Hmore & Hall).
    { rewrite (quiet_same_task _ _ _ _ Hs1). done. }
    { done. }
    { simpl. lia. }
    exists ((0%float, s1) :: results). cbn [run]. rewrite Hstep. cbn [bind].
    rewrite Hrun. cbn [bind]. rewrite final_cons.
    split; [done|]. split; [simpl; lia|].
    split; [by eapply same_task_trans|].
    split; [rewrite Hsteps; simpl; lia|].
    split; [by rewrite <- (quiet_same_task _ _ _ _ Hs1)|].
    intros k r s Hk. destruct k as [|k].
    + simpl in Hk. injection Hk as <- <-. split; [done|]. split; [done|].
      simpl. lia.
    + simpl in Hk. destruct (Hall _ _ _ Hk) as (-> & Hss & Hts).
      split; [done|]. split; [by eapply same_task_trans|].
      rewrite Hts. simpl. lia.
Qed.

(** The selector runs when it is ready, and stays ready. *)
Lemma call_specify_task_total self :
  eval_ready self →
  ∃ s1, call_specify_task self = OK s1
        ∧ eval_ready s1
        ∧ task_idx s1 < length (target_achievements self) + DUMMY_TASKS.
Proof.
  intros Hready. unfold call_specify_task.
  destruct (_specify_task self) eqn:Hmode.
  - destruct (specify_curri_task_spec self) as (s1 & Hcall & Hsel & Hlt & _).
    exists s1. split; [done|]. split; [|done].
    intros Hm. destruct Hsel. congruence.
  - destruct (Hready Hmode) as [Hid Hperm].
    assert (Hlen : length (eval_task_seq self)
                   = length (target_achievements self)).
    { rewrite Hperm. apply length_seq. }
    destruct (lookup_lt_is_Some_2 (eval_task_seq self) (eval_id self))
      as [idx Hidx]; [lia|].
    destruct (specify_eval_task_spec self idx Hidx Hlen)
      as (s1 & Hcall & Hsel & Hti & Hcur).
    exists s1. split; [done|].
    assert (idx < length (target_achievements self)) as Hreal.
    { apply list_elem_of_lookup_2 in Hidx. rewrite Hperm in Hidx.
      apply elem_of_seq in Hidx. lia. }
    split; [|lia]. intros _. destruct Hsel. rewrite sel_targets0.
    destruct Hcur as [(? & -> & ->)|(? & -> & ->)]; split; (lia || done).
Qed.

(** The three lines of an assignment run when the selector is ready and the
    dictionary has its keys. *)
Lemma reassign_total self :
  eval_ready self → given_ready self →
  ∃ s1 c,
    call_specify_task self = OK s1
    ∧ given_achievements self !! given_slot s1 = Some c
    ∧ update_given_ach s1
      = OK (set_given_achievements
              (<[given_slot s1 := c + 1]> (given_achievements self)) s1)
    ∧ eval_ready s1.
Proof.
  intros Heval [Hnames Hdummies].
  destruct (call_specify_task_total self Heval) as (s1 & Hcall & Hready & Hlt).
  pose proof (call_specify_task_selected _ _ Hcall) as [].
  assert (is_Some (given_achievements self !! given_slot s1)) as [c Hc].
  { unfold given_slot. rewrite sel_targets0.
    destruct (target_achievements self !! task_idx s1) as [name|] eqn:Hname.
    - apply Hnames. by eapply list_elem_of_lookup_2.
    - apply Hdummies. apply lookup_ge_None in Hname. lia. }
  exists s1, c. split; [done|]. split; [done|]. split; [|done].
  rewrite <- sel_given0. apply update_given_ach_total. by rewrite sel_given0.
Qed.

(** *** Steps return *)


(** What [__init__] and [reset] establish and every step keeps: the three
    task tables have one length, the descriptor of every repeat task ends in
    a count that is not zero, the dictionaries have their keys, and the
    evaluation selector can run. *)
Record ready self : Prop := {
  ready_base :
    length (target_achievements_base self) = length (target_achievements self);
  ready_rep : length (isreptask self) = length (target_achievements self);
  ready_counts :
    ∀ i task, target_achievements self !! i = Some task →
      isreptask self !! i = Some true →
      ∃ tok n q, list_last (split "_"%char task) = OK tok
                 ∧ py_float tok = OK n ∧ float_div 1 n = OK q;
  ready_follow :
    ∀ name, name ∈ target_achievements self →
      is_Some (follow_achievements self !! name);
  ready_given : given_ready self;
  ready_eval : eval_ready self
}.

Lemma incr_item_spec (d d' : gmap string nat) (k : string) :
  incr_item d k = OK d' → ∃ c, d !! k = Some c ∧ d' = <[k := c + 1]> d.
Proof.
  unfold incr_item, getitem. destruct (d !! k) as [c|]; [|done].
  cbn [bind]. intros [= <-]. by exists c.
Qed.

(** Readiness looks only at the tables, the dictionaries' keys and the
    selector. *)
Lemma ready_frame self s :
  target_achievements s = target_achievements self →
  target_achievements_base s = target_achievements_base self →
  isreptask s = isreptask self →
  (∀ name, is_Some (follow_achievements self !! name) →
           is_Some (follow_achievements s !! name)) →
  (∀ name, is_Some (given_achievements self !! name) →
           is_Some (given_achievements s !! name)) →
  eval_ready s →
  ready self → ready s.
Proof.
  intros Ht Hb Hr Hf Hg He [? ? ? ? [? ?] ?].
  constructor; rewrite ?Ht, ?Hb, ?Hr; try done.
  - intros name Hin. apply Hf. auto.
  - split.
    + intros name Hin. rewrite Ht in Hin. apply Hg. auto.
    + intros i Hi. apply Hg. auto.
Qed.







(** *** [reset] *)

(** The dictionary that [reset] builds has a key for every task and every
    decoy. *)
Lemma reset_keys (names : list string) :
  let zeros : gmap string nat :=
    (list_to_map ((λ i, (dummy_key i, 0)) <$> seq 0 DUMMY_TASKS) : gmap string nat)
    ∪ list_to_map ((λ name, (name, 0)) <$> names) in
  (∀ name, name ∈ names → is_Some (zeros !! name))
  ∧ (∀ i, i < DUMMY_TASKS → is_Some (zeros !! dummy_key i)).
Proof.
  cbn zeta. split.
  - intros name Hname. apply lookup_union_is_Some. right.
    destruct (list_to_map _ !! name) eqn:Hnone; [done|].
    apply not_elem_of_list_to_map_2 in Hnone. destruct Hnone.
    rewrite <- list_fmap_compose. apply list_elem_of_fmap. by exists name.
  - intros i Hi. apply lookup_union_is_Some. left.
    destruct (list_to_map _ !! dummy_key i) eqn:Hnone; [done|].
    apply not_elem_of_list_to_map_2 in Hnone. destruct Hnone.
    rewrite <- list_fmap_compose. apply list_elem_of_fmap. exists i.
    split; [done|]. apply elem_of_seq. lia.
Qed.

(** [reset] returns when the selector can run. *)
Lemma reset_returns (player_achievements : gmap string Z) self0 :
  eval_ready self0 → is_OK (reset player_achievements self0).
Proof.
  intros Heval. unfold reset.
  match goal with
  | |- context [call_specify_task ?x] => set (start := x)
  end.
  destruct (reset_keys (target_achievements self0)) as [Hnames Hdummies].
  destruct (reassign_total start) as (s1 & c & Hcall & _ & Hupd & _);
    [exact Heval|by split|].
  rewrite Hcall. cbn [bind]. rewrite Hupd. by eexists.
Qed.

(** After [reset], the first task is assigned and everything an assignment
    needs is in place. *)
Lemma reset_ready (player_achievements : gmap string Z) self0 self :
  eval_ready self0 →
  reset player_achievements self0 = OK self →
  eval_ready self ∧ given_ready self
  ∧ task_steps self = 0 ∧ task_progress self = 0%float.
Proof.
  intros Heval Hreset. unfold reset in Hreset. exec.
  match goal with
  | Hs : call_specify_task ?x = OK ?s1, Hu : update_given_ach ?s1 = OK _ |- _ =>
      set (start := x) in *; rename Hs into Hsel0, Hu into Hupd
  end.
  assert (eval_ready start) as Hstart by exact Heval.
  destruct (call_specify_task_total start Hstart) as (s1' & Hcall & Hready & _).
  rewrite Hsel0 in Hcall. injection Hcall as <-.
  pose proof (call_specify_task_selected _ _ Hsel0) as Hsel.
  apply update_given_ach_spec in Hupd as (c & Hc & ->).
  split; [exact Hready|]. split; [|split; [exact (sel_steps _ _ Hsel)|done]].
  unfold given_ready.
  cbn [given_achievements set_task_progress set_given_achievements
       target_achievements].
  rewrite (sel_given _ _ Hsel), (sel_targets _ _ Hsel).
  subst start.
  cbn [given_achievements set_given_achievements set_follow_achievements
       set_past_achievements set_unlocked target_achievements].
  destruct (reset_keys (target_achievements self0)) as [Hnames Hdummies].
  split.
  - intros name Hname. apply lookup_insert_is_Some'. right. by apply Hnames.
  - intros i Hi. apply lookup_insert_is_Some'. right. by apply Hdummies.
Qed.

(** After [reset], an environment whose task tables are consistent is
    ready. *)
Lemma reset_establishes_ready (player_achievements : gmap string Z) self0 self :
  length (target_achievements_base self0) = length (target_achievements self0) →
  length (isreptask self0) = length (target_achievements self0) →
  (∀ i task, target_achievements self0 !! i = Some task →
     isreptask self0 !! i = Some true →
     ∃ tok n q, list_last (split "_"%char task) = OK tok
                ∧ py_float tok = OK n ∧ float_div 1 n = OK q) →
  eval_ready self0 →
  reset player_achievements self0 = OK self →
  ready self.
Proof.
  intros Hbase Hrep Hcounts Heval Hreset.
  destruct (reset_ready _ _ _ Heval Hreset) as (Heval' & Hgiven & _ & _).
  unfold reset in Hreset. exec.
  match goal with
  | Hs : call_specify_task ?x = OK ?s1, Hu : update_given_ach ?s1 = OK _ |- _ =>
      pose proof (call_specify_task_selected _ _ Hs) as Hsel;
      apply update_given_ach_spec in Hu as (c & Hc & ->)
  end.
  destruct (reset_keys (target_achievements self0)) as [Hnames _].
  constructor; try done;
    cbn [target_achievements target_achievements_base isreptask
         follow_achievements set_task_progress set_given_achievements];
    rewrite ?(sel_targets _ _ Hsel), ?(sel_base _ _ Hsel), ?(sel_rep _ _ Hsel),
      ?(sel_follow _ _ Hsel); try done.
  intros name Hname. cbn.
  destruct (list_to_map _ !! name) eqn:Hnone; [done|].
  apply not_elem_of_list_to_map_2 in Hnone. destruct Hnone.
  rewrite <- list_fmap_compose. apply list_elem_of_fmap. by exists name.
Qed.

(** C3, as amended: when a task has just been assigned and 301 consecutive
    steps see no gain for it, the first 300 return reward 0 and leave the
    task and the given counts as they are; the 301st, on which the step
    counter exceeds 300, calls the selector, returns reward 0, leaves
    progress 0 and the step counter 0, and adds one to the given count of
    the task the selector chose, and to no other.  The count of the
    abandoned task is therefore unchanged when the selector chose a task
    with another slot; when it chose the abandoned task again, that count
    goes up by one. *)
Theorem timeout_reassigns self (steps : list (gmap string Z))
    (last_step : gmap string Z) :
  eval_ready self →
  given_ready self →
  task_steps self = 0 →
  task_progress self = 0%float →
  length steps = 300 →
  quiet self (past_achievements self) (steps ++ [last_step]) = true →
  ∃ results s',
    run (steps ++ [last_step]) self = OK (results ++ [(0%float, s')])
    ∧ length results = 300
    ∧ (∀ k r s, results !! k = Some (r, s) →
         r = 0%float ∧ task_idx s = task_idx self
         ∧ given_achievements s = given_achievements self
         ∧ task_steps s = S k)
    ∧ (∃ before chosen,
         call_specify_task before = OK chosen
         ∧ task_idx before = task_idx self
         ∧ task_steps before = 301
         ∧ task_idx s' = task_idx chosen
         ∧ task_enc s' = task_enc chosen)
    ∧ task_steps s' = 0
    ∧ task_progress s' = 0%float
    ∧ (∃ c, given_achievements self !! given_slot s' = Some c
            ∧ given_achievements s'
              = <[given_slot s' := c + 1]> (given_achievements self))
    ∧ (given_slot s' ≠ given_slot self →
       given_achievements s' !! given_slot self
       = given_achievements self !! given_slot self).
Proof.
  intros Heval Hgiven Hsteps Hprog Hlen Hquiet.
  assert (PrimFloat.leb 1 (task_progress self) = false) as Hbelow
    by (by rewrite Hprog).
  destruct (quiet_prefix steps [last_step] self Hquiet Hbelow)
    as (results & Hrun & Hrlen & Hsame & Hts & Hlast & Hall); [lia|].
  set (s300 := final self results) in *.
  cbn [quiet] in Hlast. rewrite andb_true_r in Hlast.
  rewrite <- (no_delta_same_task _ _ _ _ Hsame) in Hlast.
  assert (PrimFloat.leb 1 (task_progress s300) = false) as Hbelow'
    by (by rewrite (st_progress _ _ Hsame)).
  pose proof (quiet_step last_step s300 Hlast Hbelow') as Hstep.
  assert ((300 <? task_steps s300 + 1) = true) as Hover
    by (apply Nat.ltb_lt; lia).
  rewrite Hover in Hstep.
  set (before := ticked last_step s300) in *.
  assert (same_task self before) as Hbefore.
  { destruct Hsame. by constructor. }
  destruct (reassign_total before) as (chosen & c & Hcall & Hc & Hupd & _).
  { unfold eval_ready. rewrite (st_slot _ _ Hbefore), (st_targets _ _ Hbefore),
      (st_id _ _ Hbefore), (st_seq _ _ Hbefore). exact Heval. }
  { unfold given_ready. rewrite (st_given _ _ Hbefore), (st_targets _ _ Hbefore).
    exact Hgiven. }
  rewrite Hcall in Hstep. cbn [bind] in Hstep. rewrite Hupd in Hstep.
  cbn [bind] in Hstep.
  rewrite (st_given _ _ Hbefore) in Hc, Hstep.
  eexists results, _. split.
  { rewrite (run_app _ _ _ _ Hrun). fold s300. cbn [run]. rewrite Hstep.
    cbn [bind]. reflexivity. }
  split; [lia|]. split.
  { intros k r s Hk. destruct (Hall _ _ _ Hk) as (-> & Hs & Hk').
    split; [done|]. split; [apply (st_idx _ _ Hs)|].
    split; [apply (st_given _ _ Hs)|]. lia. }
  pose proof (call_specify_task_selected _ _ Hcall) as Hsel.
  split.
  { exists before, chosen. split; [done|]. split; [apply (st_idx _ _ Hbefore)|].
    split; [|done]. subst before. unfold ticked. simpl. lia. }
  split; [exact (sel_steps _ _ Hsel)|]. split; [done|].
  assert (Hslot : given_slot
             (set_past_achievements last_step
                (set_task_progress 0
                   (set_given_achievements
                      (<[given_slot chosen := c + 1]> (given_achievements self))
                      chosen)))
           = given_slot chosen) by done.
  rewrite Hslot. split; [by exists c|].
  intros Hne. cbn [given_achievements set_past_achievements set_task_progress
                   set_given_achievements].
  by rewrite lookup_insert_ne.
Qed.

End Reward.

(** * Further properties of the encoder and the decoder *)

Section Decoder.

Context {G : Type} {RS : RandomState G} {SY : Synonyms}.
Implicit Types (self : Env G) (enc : list nat) (w task : string).


(** The decoder's test on the trailing positions. *)
Definition any_trailing enc : bool := existsb (λ c, 0 <? c) (trailing enc).




Lemma leading_trailing enc : leading enc ++ trailing enc = enc.
Proof. unfold leading, trailing. apply take_drop. Qed.


(** Where the comprehension of the decoder raises. *)
Lemma decode_words_returns_iff (i : nat) enc :
  is_OK (decode_words i enc)
  ↔ ∀ j c, enc !! j = Some c → c ≠ 0 → i + j < length ENC_ORDER.
Proof.
  revert i. induction enc as [|c enc IH]; intros i.
  - split; [intros _ j c Hj; by rewrite lookup_nil in Hj|by eexists].
  - cbn [decode_words]. destruct c as [|c]; cbn [Nat.eqb].
    + rewrite IH. split.
      * intros Hall j c Hj Hc. destruct j as [|j]; simpl in Hj.
        { injection Hj as <-. done. }
        specialize (Hall j c Hj Hc). lia.
      * intros Hall j c Hj Hc. specialize (Hall (S j) c Hj Hc). lia.
    + unfold list_getitem.
      destruct (ENC_ORDER !! i) as [w|] eqn:Hw; cbn [bind].
      * apply lookup_lt_Some in Hw. split.
        { intros Hok j c' Hj Hc. destruct j as [|j]; simpl in Hj; [lia|].
          assert (is_OK (decode_words (S i) enc)) as Hrest.
          { destruct (decode_words (S i) enc); [by eexists|].
            destruct Hok as [? Hok]. discriminate Hok. }
          pose proof (proj1 (IH (S i)) Hrest j c' Hj Hc). lia. }
        { intros Hall.
          assert (is_OK (decode_words (S i) enc)) as [ws ->].
          { apply (proj2 (IH (S i))). intros j c' Hj Hc.
            specialize (Hall (S j) c' Hj Hc). lia. }
          by eexists. }
      * apply lookup_ge_None in Hw. split.
        { intros [? Hok]. discriminate Hok. }
        { intros Hall. specialize (Hall 0 (S c) eq_refl). lia. }
Qed.

Lemma decode_words_raises (i : nat) enc (e : exn) :
  decode_words i enc = Raise e → e = IndexError.
Proof.
  revert i. induction enc as [|c enc IH]; intros i; [done|].
  cbn [decode_words]. destruct (c =? 0); [apply IH|].
  unfold list_getitem. destruct (ENC_ORDER !! i); cbn [bind]; [|congruence].
  destruct (decode_words (S i) enc) eqn:Hrest; cbn [bind]; [done|].
  intros [= <-]. by eapply IH.
Qed.

Lemma decode_words_raises_at (i : nat) enc (e : exn) :
  decode_words i enc = Raise e →
  ∃ j c, enc !! j = Some c ∧ c ≠ 0 ∧ length ENC_ORDER ≤ i + j.
Proof.
  revert i e. induction enc as [|c enc IH]; intros i e; [done|].
  cbn [decode_words]. destruct c as [|c]; cbn [Nat.eqb].
  - intros (j & c & Hj & Hc & Hle)%IH. exists (S j), c.
    split; [done|]. split; [done|]. lia.
  - unfold list_getitem. destruct (ENC_ORDER !! i) eqn:Hw; cbn [bind].
    + destruct (decode_words (S i) enc) eqn:Hrest; cbn [bind]; [done|].
      intros _. destruct (IH _ _ Hrest) as (j & c' & Hj & Hc & Hle).
      exists (S j), c'. split; [done|]. split; [done|]. lia.
    + intros _. apply lookup_ge_None in Hw. exists 0, (S c).
      split; [done|]. split; [done|]. lia.
Qed.

(** X2: on a vector of any length, the decoder raises exactly when no
    trailing position holds a positive entry and an entry that is not 0
    stands at or beyond the length of the vocabulary; what it raises is
    [IndexError]. *)
Theorem decode_task_raises_iff enc (e : exn) :
  _decode_task enc = Raise e
  ↔ e = IndexError
    ∧ any_trailing enc = false
    ∧ ∃ j c, enc !! j = Some c ∧ c ≠ 0 ∧ length ENC_ORDER ≤ j.
Proof.
  unfold _decode_task. fold (trailing enc). fold (any_trailing enc).
  destruct (any_trailing enc) eqn:Hany.
  { split; [done|]. by intros (_ & ? & _). }
  pose proof (decode_words_returns_iff 0 enc) as Hiff.
  destruct (decode_words 0 enc) as [ws|e'] eqn:Hwords; cbn [bind].
  - split; [done|]. intros (_ & _ & j & c & Hj & Hc & Hbeyond).
    assert (is_OK (OK ws : result (list string))) as Hok by (by eexists).
    pose proof (proj1 Hiff Hok j c Hj Hc). lia.
  - pose proof (decode_words_raises _ _ _ Hwords) as ->. split.
    + intros [= <-]. split; [done|]. split; [done|].
      destruct (decode_words_raises_at _ _ _ Hwords) as (j & c & Hj & Hc & Hle).
      by exists j, c.
    + by intros (-> & _ & _).
Qed.

(** The encoding of a real task with descriptor [task]. *)
Definition bag (task : string) : list nat :=
  (indicator (split "_" task) <$> ENC_ORDER) ++ replicate DUMMY_BITS 0.

Lemma indicator_eq_iff (ws1 ws2 : list string) w :
  indicator ws1 w = indicator ws2 w ↔ (w ∈ ws1 ↔ w ∈ ws2).
Proof.
  unfold indicator.
  destruct (decide (w ∈ ws1)) as [H1|H1], (decide (w ∈ ws2)) as [H2|H2].
  - rewrite !bool_decide_eq_true_2 by done. split; [intros _; by split|done].
  - rewrite bool_decide_eq_true_2, bool_decide_eq_false_2 by done.
    split; [done|]. intros Hiff. destruct H2. by apply Hiff.
  - rewrite bool_decide_eq_false_2, bool_decide_eq_true_2 by done.
    split; [done|]. intros Hiff. destruct H1. by apply Hiff.
  - rewrite !bool_decide_eq_false_2 by done.
    split; [intros _; split; intros; contradiction|done].
Qed.

Lemma fmap_eq_iff {A B : Type} (f g : A → B) (l : list A) :
  f <$> l = g <$> l ↔ ∀ x, x ∈ l → f x = g x.
Proof.
  induction l as [|x l IH]; simpl.
  - split; [intros _ y Hy; by apply elem_of_nil in Hy|done].
  - split.
    + intros [= Hx Hl] y [->|Hy]%elem_of_cons; [done|]. by apply IH.
    + intros Hall. f_equal; [apply Hall; by left|].
      apply IH. intros y Hy. apply Hall. by right.
Qed.

(** X3: the encoding of a real task is a bag of words.  Two real tasks, in
    the same environment or not, get the same encoding exactly when the same
    vocabulary words occur among the tokens of their descriptors: the order
    of the tokens, their repetition and the tokens outside the vocabulary
    leave no trace. *)
Theorem real_encodings_equal_iff (a1 a2 : nat) (s1 s2 : Env G) (t1 t2 : string) :
  target_achievements s1 !! task_idx s1 = Some t1 →
  target_achievements s2 !! task_idx s2 = Some t2 →
  ∃ e1 e2,
    _encode_task a1 s1 = OK (e1, s1)
    ∧ _encode_task a2 s2 = OK (e2, s2)
    ∧ (e1 = e2
       ↔ ∀ w, w ∈ ENC_ORDER → (w ∈ split "_" t1 ↔ w ∈ split "_" t2)).
Proof.
  intros H1 H2. exists (bag t1), (bag t2).
  split; [by apply encode_real|]. split; [by apply encode_real|].
  unfold bag. split.
  - intros Heq%app_inv_tail w Hw.
    apply indicator_eq_iff. by apply (proj1 (fmap_eq_iff _ _ _) Heq).
  - intros Hsame. f_equal. apply fmap_eq_iff. intros w Hw.
    apply indicator_eq_iff. by apply Hsame.
Qed.

(** The encoding alone, of what the encoder returns. *)
Definition encoding_of (m : result (list nat * Env G)) : result (list nat) :=
  let* (enc, _) := m in OK enc.

(** X4: the encoding of a decoy does not depend on which decoy is active.
    With the same generator, any two decoy indices get the same encoding: it
    is drawn from the generator alone. *)
Theorem decoy_encoding_ignores_index (a b i j : nat) self :
  length (target_achievements self) ≤ i →
  length (target_achievements self) ≤ j →
  encoding_of (_encode_task a (set_task_idx i self))
  = encoding_of (_encode_task b (set_task_idx j self)).
Proof.
  intros Hi Hj. unfold _encode_task.
  cbn [task_idx target_achievements set_task_idx rng].
  apply Nat.ltb_ge in Hi, Hj. rewrite Hi, Hj.
  destruct (random_bits DUMMY_BITS (rng self)) as [bits g1].
  destruct (random_randint DUMMY_BITS g1) as [r g2].
  by destruct (_ <? r + 1).
Qed.

End Decoder.

(** * The course of an episode *)

Section Episode.

Context {G : Type} {RS : RandomState G} {SY : Synonyms}.
Implicit Types (self : Env G) (achievements : gmap string Z).

(** The achievements with a positive count. *)
Definition unlocked_by achievements : gset string :=
  dom (filter (λ kv, (0 < kv.2)%Z) achievements).

(** The environment after the first lines of a step: new achievements
    noted. *)
Definition noted achievements self : Env G :=
  set_unlocked
    (_unlocked self ∪ unlocked_by achievements ∖ _unlocked self) self.

Lemma list_getitem_OK {A : Type} (l : list A) (i : nat) (x : A) :
  list_getitem l i = OK x → l !! i = Some x.
Proof. unfold list_getitem. by destruct (l !! i); intros [= <-]. Qed.

Lemma getitem_OK {V : Type} (d : gmap string V) (k : string) (v : V) :
  getitem d k = OK v → d !! k = Some v.
Proof. unfold getitem. by destruct (d !! k); intros [= <-]. Qed.

(** The paths of a step that returns.  [p] is the progress of the task when
    the step has looked at the counter. *)
Inductive outcome achievements self : float → Env G → Prop :=
| waited (p : float) :
    p = task_progress self ∨ PrimFloat.leb 1 p = false →
    task_steps self + 1 ≤ 300 →
    outcome achievements self 0
      (set_past_achievements achievements
         (set_task_progress p (ticked achievements self)))
| timed_out (p : float) (s1 s2 : Env G) :
    p = task_progress self ∨ PrimFloat.leb 1 p = false →
    300 < task_steps self + 1 →
    call_specify_task (set_task_progress p (ticked achievements self)) = OK s1 →
    update_given_ach s1 = OK s2 →
    outcome achievements self 0
      (set_past_achievements achievements (set_task_progress 0 s2))
| completed (task base : string) (rep : bool) (cur old : Z) (p : float)
    (c : nat) (s1 s2 : Env G) :
    target_achievements self !! task_idx self = Some task →
    target_achievements_base self !! task_idx self = Some base →
    isreptask self !! task_idx self = Some rep →
    achievements !! watched base rep = Some cur →
    past_achievements self !! watched base rep = Some old →
    (0 < cur - old)%Z
    ∨ (rep = true ∧ PrimFloat.leb 1 (task_progress self) = true) →
    follow_achievements self !! task = Some c →
    call_specify_task
      (set_follow_achievements (<[task := c + 1]> (follow_achievements self))
         (set_task_progress p (noted achievements self))) = OK s1 →
    update_given_ach s1 = OK s2 →
    outcome achievements self 1
      (set_past_achievements achievements (set_task_progress 0 s2)).

Ltac paths :=
  repeat match goal with
  | H : bind ?m _ = _ |- _ =>
      let E := fresh "E" in
      destruct m as [?|?] eqn:E; cbn [bind] in H; [|discriminate H]
  | H : (if ?c then _ else _) = _ |- _ =>
      let C := fresh "C" in destruct c eqn:C
  | x : (_ * _)%type |- _ => destruct x
  | H : OK _ = OK _ |- _ => injection H as H; subst
  | H : (_, _) = (_, _) |- _ => injection H as H; subst
  | H : Raise _ = OK _ |- _ => discriminate H
  end.



Lemma _get_reward_outcome achievements self reward self' :
  _get_reward achievements self = OK (reward, self') →
  outcome achievements self reward self'.
Proof.
  intros Hstep. unfold _get_reward in Hstep. paths.
  all: try congruence.
  all: repeat match goal with
       | H : list_getitem _ _ = OK _ |- _ => apply list_getitem_OK in H
       | H : counter_getitem _ _ = OK _ |- _ =>
           unfold counter_getitem in H; apply getitem_OK in H
       | H : incr_item _ _ = OK _ |- _ =>
           apply incr_item_spec in H as (? & ? & ->)
       | C : (_ <? _) = true |- _ => apply Nat.ltb_lt in C
       | C : (_ <? _) = false |- _ => apply Nat.ltb_ge in C
       | C : (_ <? _)%Z = true |- _ => apply Z.ltb_lt in C
       end.
  all: cbn [task_idx target_achievements target_achievements_base isreptask
            past_achievements follow_achievements task_progress task_steps
            set_unlocked set_task_progress set_task_steps
            set_follow_achievements] in *.
  all: match goal with
       | Hs : call_specify_task ?mid = OK ?s1,
         Hu : update_given_ach ?s1 = OK ?s2,
         Hf : follow_achievements ?e !! ?t = Some ?x |- outcome ?a ?e _ _ =>
           let p := match mid with
                    | context [set_task_progress ?p] => p
                    | _ => constr:(task_progress e)
                    end in
           refine (completed a e t _ _ _ _ p x s1 s2 _ _ _ _ _ _ Hf Hs Hu);
           try eassumption
       | Hs : call_specify_task ?mid = OK ?s1,
         Hu : update_given_ach ?s1 = OK ?s2 |- outcome ?a ?e _ _ =>
           let p := match mid with
                    | context [set_task_progress ?p] => p
                    | _ => constr:(task_progress e)
                    end in
           refine (timed_out a e p s1 s2 _ _ Hs Hu)
       | |- outcome ?a ?e _ ?s =>
           let p := match s with
                    | context [set_task_progress ?p] => p
                    | _ => constr:(task_progress e)
                    end in
           refine (waited a e p _ _)
       end.
  all: try lia.
  all: try (by left).
  all: try (by right).
Qed.

(** What an assignment does to the environment it starts from. *)
Lemma assignment_spec (mid s1 s2 : Env G) :
  call_specify_task mid = OK s1 →
  update_given_ach s1 = OK s2 →
  selected mid s1
  ∧ ∃ c, given_achievements mid !! given_slot s1 = Some c
         ∧ s2 = set_given_achievements
                  (<[given_slot s1 := c + 1]> (given_achievements mid)) s1.
Proof.
  intros Hsel Hupd. pose proof (call_specify_task_selected _ _ Hsel) as Hs.
  split; [done|].
  apply update_given_ach_spec in Hupd as (c & Hc & ->).
  rewrite (sel_given _ _ Hs) in *. by exists c.
Qed.

(** A property that every step keeps holds throughout a run. *)
Lemma run_invariant (P : Env G → Prop) steps self results :
  (∀ a s r s', P s → _get_reward a s = OK (r, s') → P s') →
  P self →
  run steps self = OK results →
  ∀ k, k ≤ length results → P (state_before self results k).
Proof.
  intros Hkeep. revert self results.
  induction steps as [|a steps IH]; intros self results Hself Hrun k Hk.
  - cbn [run] in Hrun. inv_OK. simpl in Hk. by replace k with 0 by lia.
  - cbn [run] in Hrun. paths. rename e into s1, a0 into rest.
    destruct k as [|[|k]]; [done|by eapply Hkeep|].
    pose proof (IH s1 rest (Hkeep _ _ _ _ Hself E) E0 (S k)) as Hrec.
    simpl in Hk. cbn [state_before] in *. rewrite lookup_cons.
    assert (is_Some (rest !! k)) as [x Hx] by (apply lookup_lt_is_Some_2; lia).
    rewrite Hx in *. apply Hrec. lia.
Qed.

(** ** The observation *)

(** [BoxSpace(low, high, (shape, ), np.uint8)] *)
Record BoxSpace : Type := mkBox { low : nat; high : nat; shape : nat }.

(** The vectors of a box. *)
Definition within (space : BoxSpace) (x : list nat) : Prop :=
  length x = shape space ∧ Forall (λ c, low space ≤ c ≤ high space) x.

(** The ['task_enc'] entry of [observation_space]; the ['image'] entry
    describes the picture that the simulation renders. *)
Definition observation_space : BoxSpace :=
  mkBox 0 1 (length ENC_ORDER + DUMMY_BITS).

(** The ['task_enc'] entry of [_obs]. *)
Definition _obs self : list nat := task_enc self.

(** The text of [_decode_task] for the active task. *)
Definition description self : string :=
  match target_achievements self !! task_idx self with
  | Some task => join " " (filter (λ w, w ∈ split "_" task) ENC_ORDER)
  | None => "dummy task"
  end.

(** The encoding of a decoy: zeros over the vocabulary, then bits of which
    one is set. *)
Definition decoy_shaped (enc : list nat) : Prop :=
  length enc = length ENC_ORDER + DUMMY_BITS
  ∧ Forall (λ c, c = 0) (leading enc)
  ∧ Forall (λ c, c ≤ 1) (trailing enc)
  ∧ Exists (λ c, c = 1) (trailing enc).

(** [task_enc] is an encoding of the active task. *)
Definition describes self : Prop :=
  match target_achievements self !! task_idx self with
  | Some task => task_enc self = bag task
  | None => decoy_shaped (task_enc self)
  end.

Lemma encode_describes (task_idx_arg : nat) self enc self' :
  _encode_task task_idx_arg self = OK (enc, self') →
  target_achievements self' = target_achievements self
  ∧ task_idx self' = task_idx self
  ∧ match target_achievements self !! task_idx self with
    | Some task => enc = bag task
    | None => decoy_shaped enc
    end.
Proof.
  destruct (target_achievements self !! task_idx self) as [task|] eqn:Hl.
  - rewrite (encode_real _ _ _ Hl). by intros [= <- <-].
  - apply lookup_ge_None in Hl. unfold _encode_task.
    assert ((task_idx self <? length (target_achievements self)) = false) as ->
      by (apply Nat.ltb_ge; lia).
    pose proof (random_bits_length DUMMY_BITS (rng self)) as Hlen.
    pose proof (random_bits_01 DUMMY_BITS (rng self)) as H01.
    destruct (random_bits DUMMY_BITS (rng self)) as [bits g1].
    simpl in Hlen, H01.
    pose proof (random_randint_lt DUMMY_BITS g1) as Hr.
    destruct (random_randint DUMMY_BITS g1) as [r g2]. simpl in Hr.
    assert (r < DUMMY_BITS) as Hr' by (apply Hr; unfold DUMMY_BITS; lia).
    rewrite length_replicate, Nat.add_sub, take_replicate_add.
    rewrite length_app, length_replicate, Hlen.
    assert ((length ENC_ORDER + DUMMY_BITS <? r + 1) = false) as ->
      by (apply Nat.ltb_ge; lia).
    rewrite insert_app_r_alt by (rewrite length_replicate; lia).
    rewrite length_replicate.
    replace (length ENC_ORDER + DUMMY_BITS - (r + 1) - length ENC_ORDER)
      with (DUMMY_BITS - (r + 1)) by lia.
    intros Heq.
    assert (enc = replicate (length ENC_ORDER) 0
                  ++ <[DUMMY_BITS - (r + 1) := 1]> bits
            ∧ self' = set_rng g2 self) as [-> ->]
      by (by injection Heq as <- <-).
    split; [done|]. split; [done|].
    assert (Hw : length (replicate (length ENC_ORDER) 0
                         ++ <[DUMMY_BITS - (r + 1) := 1]> bits)
                 = length ENC_ORDER + DUMMY_BITS).
    { rewrite length_app, length_replicate, length_insert. lia. }
    unfold decoy_shaped, trailing, leading. rewrite Hw, Nat.add_sub.
    rewrite drop_app_length' by (by rewrite length_replicate).
    rewrite take_app_length' by (by rewrite length_replicate).
    split; [done|]. split; [by apply Forall_replicate|]. split.
    + apply Forall_insert; [done|lia].
    + apply Exists_exists. exists 1. split; [|done].
      apply list_elem_of_lookup. exists (DUMMY_BITS - (r + 1)).
      apply list_lookup_insert_eq. lia.
Qed.

(** The selector leaves the encoding of the task it chose. *)
Lemma call_specify_task_describes self s1 :
  call_specify_task self = OK s1 → describes s1.
Proof.
  unfold call_specify_task. destruct (_specify_task self).
  - unfold _specify_curri_task.
    destruct (random_choice _ (rng self)) as [idx g]. intros Hcall. paths.
    apply encode_describes in E as (Ht & Hi & Henc).
    unfold describes. cbn [task_enc task_idx target_achievements set_task_enc].
    by rewrite Ht, Hi.
  - unfold _specify_eval_task. intros Hcall. paths.
    all: match goal with
         | E : _encode_task _ _ = OK _ |- _ =>
             apply encode_describes in E as (Ht & Hi & Henc)
         end.
    all: unfold describes;
      cbn [task_enc task_idx target_achievements set_task_enc].
    all: by rewrite Ht, Hi.
Qed.

Lemma _get_reward_describes achievements self reward self' :
  describes self →
  _get_reward achievements self = OK (reward, self') →
  describes self'.
Proof.
  intros Hself Hstep.
  destruct (_get_reward_outcome _ _ _ _ Hstep)
    as [p _ _|p s1 s2 _ _ Hsel Hupd|task base rep cur old p c s1 s2
        _ _ _ _ _ _ _ Hsel Hupd].
  - exact Hself.
  - destruct (assignment_spec _ _ _ Hsel Hupd) as (_ & c & _ & ->).
    exact (call_specify_task_describes _ _ Hsel).
  - destruct (assignment_spec _ _ _ Hsel Hupd) as (_ & c' & _ & ->).
    exact (call_specify_task_describes _ _ Hsel).
Qed.

Lemma reset_describes (player_achievements : gmap string Z) self0 self :
  reset player_achievements self0 = OK self → describes self.
Proof.
  unfold reset. intros Hreset. paths.
  destruct (assignment_spec _ _ _ E E0) as (_ & c & _ & ->).
  exact (call_specify_task_describes _ _ E).
Qed.

Lemma decode_bag (task : string) :
  _decode_task (bag task)
  = OK (join " " (filter (λ w, w ∈ split "_" task) ENC_ORDER)).
Proof.
  unfold _decode_task, bag.
  rewrite length_app, length_fmap, length_replicate, Nat.add_sub.
  rewrite drop_app_length' by (by rewrite length_fmap).
  assert (existsb (λ c, 0 <? c) (replicate DUMMY_BITS 0) = false) as ->
    by reflexivity.
  pose proof (decode_words_indicator (split "_" task) [] ENC_ORDER
                DUMMY_BITS eq_refl) as Hw.
  cbn [length] in Hw. by rewrite Hw.
Qed.

Lemma bag_within (task : string) : within observation_space (bag task).
Proof.
  unfold within, observation_space, bag. cbn [low high shape].
  rewrite length_app, length_fmap, length_replicate. split; [done|].
  apply Forall_app. split.
  - apply Forall_fmap, Forall_forall. intros w _. simpl. unfold indicator.
    destruct (bool_decide _); lia.
  - apply Forall_replicate. lia.
Qed.

Lemma decoy_shaped_within (enc : list nat) :
  decoy_shaped enc →
  within observation_space enc ∧ _decode_task enc = OK "dummy task".
Proof.
  intros (Hlen & Hlead & Htrail & Hone). split.
  - split; [done|]. cbn [low high]. rewrite <- (leading_trailing enc).
    apply Forall_app. split.
    + eapply Forall_impl; [exact Hlead|]. simpl. lia.
    + eapply Forall_impl; [exact Htrail|]. simpl. lia.
  - unfold _decode_task. fold (trailing enc).
    assert (existsb (λ c, 0 <? c) (trailing enc) = true) as ->; [|done].
    apply Exists_exists in Hone as (c & Hc & ->).
    apply existsb_exists. exists 1. split; [by apply list_elem_of_In|done].
Qed.

Lemma describes_observation self :
  describes self →
  within observation_space (_obs self)
  ∧ _decode_task (_obs self) = OK (description self).
Proof.
  unfold describes, description, _obs.
  destruct (target_achievements self !! task_idx self) as [task|].
  - intros ->. split; [apply bag_within|apply decode_bag].
  - apply decoy_shaped_within.
Qed.

(** X5: the observation follows the active task.  After [reset] and after
    every step of a run, whether the step assigned a task or not, the
    ['task_enc'] entry of the observation lies in the box that
    [observation_space] declares for it, and [_decode_task] returns on it the
    text of the task that is active then: the vocabulary words of its
    descriptor for a real task, the sentinel for a decoy. *)
Theorem observation_describes_active_task
    (player_achievements : gmap string Z) (self0 self : Env G)
    (steps : list (gmap string Z)) (results : list (float * Env G)) :
  reset player_achievements self0 = OK self →
  run steps self = OK results →
  ∀ k, k ≤ length results →
    within observation_space (_obs (state_before self results k))
    ∧ _decode_task (_obs (state_before self results k))
      = OK (description (state_before self results k)).
Proof.
  intros Hreset Hrun k Hk. apply describes_observation.
  apply (run_invariant describes steps self results); try done.
  - intros a s r s' Hs Hstep. by eapply _get_reward_describes.
  - by eapply reset_describes.
Qed.

(** ** Followed tasks *)

(** The steps of a run that returned reward 1. *)
Definition rewarded (results : list (float * Env G)) : nat :=
  length (filter (λ rs, PrimFloat.eqb rs.1 1 = true) results).

Lemma zero_not_one : 0%float ≠ 1%float.
Proof.
  intros Heq. assert (PrimFloat.eqb 0 1 = true) as Hb by (by rewrite Heq).
  vm_compute in Hb. discriminate Hb.
Qed.

(** What a step does to [follow_achievements]. *)
Lemma step_follow achievements self reward self' :
  _get_reward achievements self = OK (reward, self') →
  (reward = 0%float
   ∧ follow_achievements self' = follow_achievements self)
  ∨ (reward = 1%float
     ∧ ∃ task c,
         target_achievements self !! task_idx self = Some task
         ∧ follow_achievements self !! task = Some c
         ∧ follow_achievements self'
           = <[task := c + 1]> (follow_achievements self)).
Proof.
  intros Hstep.
  destruct (_get_reward_outcome _ _ _ _ Hstep)
    as [p _ _|p s1 s2 _ _ Hsel Hupd|task base rep cur old p c s1 s2
        Htask _ _ _ _ _ Hc Hsel Hupd].
  - by left.
  - left. split; [done|].
    destruct (assignment_spec _ _ _ Hsel Hupd) as (Hs & c & _ & ->).
    exact (sel_follow _ _ Hs).
  - right. split; [done|]. exists task, c. split; [done|]. split; [done|].
    destruct (assignment_spec _ _ _ Hsel Hupd) as (Hs & c' & _ & ->).
    exact (sel_follow _ _ Hs).
Qed.

Lemma rewarded_cons (r : float) (s : Env G) (results : list (float * Env G)) :
  rewarded ((r, s) :: results)
  = (if PrimFloat.eqb r 1 then 1 else 0) + rewarded results.
Proof.
  unfold rewarded. rewrite filter_cons. cbn [fst].
  destruct (PrimFloat.eqb r 1) eqn:Hr.
  - by rewrite decide_True.
  - by rewrite decide_False.
Qed.

Lemma run_follow steps self results :
  run steps self = OK results →
  total (follow_achievements (final self results))
  = total (follow_achievements self) + rewarded results.
Proof.
  revert self results. induction steps as [|a steps IH]; intros self results Hrun.
  - cbn [run] in Hrun. inv_OK. unfold final, rewarded. simpl. lia.
  - cbn [run] in Hrun. paths. rename e into s1, a0 into rest.
    rewrite final_cons, (IH _ _ E0), rewarded_cons.
    destruct (step_follow _ _ _ _ E) as [[-> ->]|(-> & task & c & _ & Hc & ->)].
    + assert (PrimFloat.eqb 0 1 = false) as -> by reflexivity. lia.
    + assert (PrimFloat.eqb 1 1 = true) as -> by reflexivity.
      rewrite (total_incr _ _ _ Hc). lia.
Qed.

(** [reset] leaves the dictionaries it has built, but for the count of the
    first task. *)
Lemma reset_dictionaries (player_achievements : gmap string Z) self0 self :
  reset player_achievements self0 = OK self →
  _unlocked self = ∅
  ∧ past_achievements self = player_achievements
  ∧ task_progress self = 0%float
  ∧ target_achievements self = target_achievements self0
  ∧ follow_achievements self
    = list_to_map ((λ k, (k, 0)) <$> target_achievements self0)
  ∧ ∃ c,
      ((list_to_map ((λ i, (dummy_key i, 0)) <$> seq 0 DUMMY_TASKS)
          : gmap string nat)
       ∪ list_to_map ((λ k, (k, 0)) <$> target_achievements self0))
      !! given_slot self = Some c
      ∧ given_achievements self
        = <[given_slot self := c + 1]>
            ((list_to_map ((λ i, (dummy_key i, 0)) <$> seq 0 DUMMY_TASKS)
                : gmap string nat)
             ∪ list_to_map ((λ k, (k, 0)) <$> target_achievements self0)).
Proof.
  unfold reset. intros Hreset. paths.
  destruct (assignment_spec _ _ _ E E0) as (Hs & c & Hc & ->).
  split; [exact (sel_unlocked _ _ Hs)|].
  split; [exact (sel_past _ _ Hs)|]. split; [done|].
  split; [exact (sel_targets _ _ Hs)|].
  split; [exact (sel_follow _ _ Hs)|]. by exists c.
Qed.

(** X6: [follow_achievements] counts the rewards.  [reset] leaves every
    count at 0.  A step that returns reward 0 leaves the counts as they are;
    a step that returns reward 1 adds one to the count of the task that was
    active when the step began, and to no other.  Hence the counts at the end
    of a run sum to the number of its steps that returned reward 1. *)
Theorem followed_counts_rewards
    (player_achievements : gmap string Z) (self0 self : Env G)
    (steps : list (gmap string Z)) (results : list (float * Env G)) :
  reset player_achievements self0 = OK self →
  run steps self = OK results →
  (∀ k c, follow_achievements self !! k = Some c → c = 0)
  ∧ (∀ k reward s, results !! k = Some (reward, s) →
       (reward = 0%float
        ∧ follow_achievements s
          = follow_achievements (state_before self results k))
       ∨ (reward = 1%float
          ∧ ∃ task c,
              target_achievements (state_before self results k)
                !! task_idx (state_before self results k) = Some task
              ∧ follow_achievements (state_before self results k) !! task
                = Some c
              ∧ follow_achievements s
                = <[task := c + 1]>
                    (follow_achievements (state_before self results k))))
  ∧ total (follow_achievements (final self results)) = rewarded results.
Proof.
  intros Hreset Hrun.
  destruct (reset_dictionaries _ _ _ Hreset) as (_ & _ & _ & _ & Hfollow & _).
  assert (Hzero : ∀ k c, follow_achievements self !! k = Some c → c = 0).
  { intros k c. rewrite Hfollow.
    intros Hk%elem_of_list_to_map_2.
    by apply list_elem_of_fmap in Hk as (? & [= _ ->] & _). }
  split; [done|]. split.
  - intros k reward s Hres.
    assert (is_Some (steps !! k)) as [a Ha].
    { apply lookup_lt_is_Some_2. rewrite <- (run_length _ _ _ Hrun).
      by eapply lookup_lt_Some. }
    destruct (run_lookup _ _ _ _ _ Hrun Ha) as (r' & s' & Hres' & Hstep).
    rewrite Hres in Hres'. injection Hres' as <- <-.
    exact (step_follow _ _ _ _ Hstep).
  - rewrite (run_follow _ _ _ Hrun), (total_zero _ Hzero). lia.
Qed.

(** ** Followed and given *)

(** No task was followed more often than it was given. *)
Definition follow_within_given self : Prop :=
  ∀ k c, follow_achievements self !! k = Some c →
    ∃ g, given_achievements self !! k = Some g ∧ c ≤ g.

(** The active task was given more often than it was followed. *)
Definition active_is_owed self : Prop :=
  ∀ task c, target_achievements self !! task_idx self = Some task →
    follow_achievements self !! task = Some c →
    ∃ g, given_achievements self !! task = Some g ∧ c < g.

Lemma assignment_within_given (mid s1 s2 : Env G) :
  follow_within_given mid →
  call_specify_task mid = OK s1 →
  update_given_ach s1 = OK s2 →
  follow_within_given s2 ∧ active_is_owed s2.
Proof.
  intros Hmid Hsel Hupd.
  destruct (assignment_spec _ _ _ Hsel Hupd) as (Hs & c0 & Hc0 & ->).
  unfold follow_within_given, active_is_owed.
  cbn [follow_achievements given_achievements target_achievements task_idx
       set_given_achievements].
  rewrite (sel_follow _ _ Hs). split.
  - intros k c Hk. destruct (Hmid k c Hk) as (g & Hg & Hle).
    destruct (decide (k = given_slot s1)) as [->|Hne].
    + exists (c0 + 1). rewrite lookup_insert_eq. split; [done|].
      rewrite Hc0 in Hg. injection Hg as <-. lia.
    + exists g. by rewrite lookup_insert_ne.
  - intros task c Htask Hk. destruct (Hmid task c Hk) as (g & Hg & Hle).
    assert (given_slot s1 = task) as Hslot by (unfold given_slot; by rewrite Htask).
    rewrite Hslot in *. exists (c0 + 1). rewrite lookup_insert_eq.
    split; [done|]. rewrite Hc0 in Hg. injection Hg as <-. lia.
Qed.

Lemma _get_reward_within_given achievements self reward self' :
  follow_within_given self ∧ active_is_owed self →
  _get_reward achievements self = OK (reward, self') →
  follow_within_given self' ∧ active_is_owed self'.
Proof.
  intros [Hall Hactive] Hstep.
  destruct (_get_reward_outcome _ _ _ _ Hstep)
    as [p _ _|p s1 s2 _ _ Hsel Hupd|task base rep cur old p c s1 s2
        Htask _ _ _ _ _ Hc Hsel Hupd].
  - by split.
  - exact (assignment_within_given
             (set_task_progress p (ticked achievements self)) _ _
             Hall Hsel Hupd).
  - refine (assignment_within_given _ _ _ _ Hsel Hupd).
    intros k c' Hk.
    cbn [follow_achievements given_achievements set_follow_achievements
         set_task_progress noted set_unlocked] in *.
    destruct (decide (k = task)) as [->|Hne].
    + rewrite lookup_insert_eq in Hk. injection Hk as <-.
      destruct (Hactive task c Htask Hc) as (g & Hg & Hlt).
      exists g. split; [done|lia].
    + rewrite lookup_insert_ne in Hk by done. by apply Hall.
Qed.

Lemma reset_within_given (player_achievements : gmap string Z) self0 self :
  reset player_achievements self0 = OK self →
  follow_within_given self ∧ active_is_owed self.
Proof.
  unfold reset. intros Hreset. paths.
  refine (assignment_within_given _ _ _ _ E E0).
  intros k c Hk.
  cbn [follow_achievements given_achievements set_given_achievements
       set_follow_achievements] in *.
  apply elem_of_list_to_map_2, list_elem_of_fmap in Hk as (name & [= -> ->] & Hname).
  destruct (reset_keys (target_achievements self0)) as [Hnames _].
  destruct (Hnames name Hname) as [g Hg]. exists g. split; [exact Hg|lia].
Qed.

(** X7: no task is followed more often than it was given.  After [reset]
    and after every step of a run, the count of every task in
    [follow_achievements] is at most its count in [given_achievements], and
    for the task that is active then it is smaller: the assignment under way
    is counted as given and not yet as followed. *)
Theorem followed_at_most_given
    (player_achievements : gmap string Z) (self0 self : Env G)
    (steps : list (gmap string Z)) (results : list (float * Env G)) :
  reset player_achievements self0 = OK self →
  run steps self = OK results →
  ∀ k, k ≤ length results →
    (∀ name c,
       follow_achievements (state_before self results k) !! name = Some c →
       ∃ g, given_achievements (state_before self results k) !! name = Some g
            ∧ c ≤ g)
    ∧ (∀ task c,
         target_achievements (state_before self results k)
           !! task_idx (state_before self results k) = Some task →
         follow_achievements (state_before self results k) !! task = Some c →
         ∃ g, given_achievements (state_before self results k) !! task = Some g
              ∧ c < g).
Proof.
  intros Hreset Hrun k Hk.
  apply (run_invariant (λ s, follow_within_given s ∧ active_is_owed s)
           steps self results); try done.
  - intros a s r s' Hs Hstep. by eapply _get_reward_within_given.
  - by eapply reset_within_given.
Qed.

(** ** Progress and gains *)

Lemma _get_reward_below_one achievements self reward self' :
  PrimFloat.leb 1 (task_progress self) = false →
  _get_reward achievements self = OK (reward, self') →
  PrimFloat.leb 1 (task_progress self') = false.
Proof.
  intros Hself Hstep.
  destruct (_get_reward_outcome _ _ _ _ Hstep)
    as [p [->|Hp] _|p s1 s2 _ _ Hsel Hupd|task base rep cur old p c s1 s2
        _ _ _ _ _ _ _ Hsel Hupd]; done.
Qed.

(** X8: a reward needs a gain.  After [reset] and after every step of a
    run [task_progress] is below 1, so the completion test of a repeat task
    can only succeed on a step that has just added to the progress.  Hence
    every step that returns reward 1 started with a real task active and
    found the entry of the counter that the task is compared on higher than
    in the snapshot of the step before. *)
Theorem reward_needs_a_gain
    (player_achievements : gmap string Z) (self0 self : Env G)
    (steps : list (gmap string Z)) (results : list (float * Env G))
    (k : nat) (achievements : gmap string Z) (reward : float) (s : Env G) :
  reset player_achievements self0 = OK self →
  run steps self = OK results →
  steps !! k = Some achievements →
  results !! k = Some (reward, s) →
  PrimFloat.leb 1 (task_progress (state_before self results k)) = false
  ∧ PrimFloat.leb 1 (task_progress s) = false
  ∧ (reward = 1%float →
     ∃ task base rep cur old,
       target_achievements (state_before self results k)
         !! task_idx (state_before self results k) = Some task
       ∧ target_achievements_base (state_before self results k)
           !! task_idx (state_before self results k) = Some base
       ∧ isreptask (state_before self results k)
           !! task_idx (state_before self results k) = Some rep
       ∧ achievements !! watched base rep = Some cur
       ∧ past_achievements (state_before self results k) !! watched base rep
         = Some old
       ∧ (0 < cur - old)%Z).
Proof.
  intros Hreset Hrun Ha Hres.
  destruct (run_lookup _ _ _ _ _ Hrun Ha) as (r' & s' & Hres' & Hstep).
  rewrite Hres in Hres'. injection Hres' as <- <-.
  assert (Hbelow : PrimFloat.leb 1 (task_progress (state_before self results k))
                   = false).
  { apply (run_invariant (λ s, PrimFloat.leb 1 (task_progress s) = false)
             steps self results); try done.
    - intros a0 s0 r0 s0' Hs0 Hstep0. by eapply _get_reward_below_one.
    - by destruct (reset_dictionaries _ _ _ Hreset) as (_ & _ & -> & _).
    - apply lookup_lt_Some in Hres. lia. }
  split; [done|].
  split; [by eapply _get_reward_below_one|].
  destruct (_get_reward_outcome _ _ _ _ Hstep)
    as [p _ _|p s1 s2 _ _ Hsel Hupd|task base rep cur old p c s1 s2
        Htask Hbase Hrep Hcur Hold Hgain Hc Hsel Hupd].
  - intros Hone. destruct (zero_not_one Hone).
  - intros Hone. destruct (zero_not_one Hone).
  - intros _. exists task, base, rep, cur, old. do 5 (split; [done|]).
    destruct Hgain as [Hgain|[_ Hfull]]; [done|congruence].
Qed.

(** X9: when the reward is 1.  A step that starts with a real task active
    and its progress below 1 returns reward 1 exactly when the entry the
    task is compared on is higher than in the snapshot and, for a repeat
    task, the progress with [1 / N] added has reached 1, [N] being the count
    at the end of the descriptor. *)
Theorem reward_iff_gain_completes_task
    achievements self (reward : float) (self' : Env G)
    (task base : string) (rep : bool) (cur old : Z) :
  _get_reward achievements self = OK (reward, self') →
  target_achievements self !! task_idx self = Some task →
  target_achievements_base self !! task_idx self = Some base →
  isreptask self !! task_idx self = Some rep →
  achievements !! watched base rep = Some cur →
  past_achievements self !! watched base rep = Some old →
  PrimFloat.leb 1 (task_progress self) = false →
  reward = 1%float
  ↔ (0 < cur - old)%Z
    ∧ (rep = true →
       ∃ tok n q,
         list_last (split "_"%char task) = OK tok
         ∧ py_float tok = OK n
         ∧ float_div 1 n = OK q
         ∧ PrimFloat.leb 1 (PrimFloat.add (task_progress self) q) = true).
Proof.
  intros Hstep Htask Hbase Hrep Hcur Hold Hbelow.
  unfold _get_reward, list_getitem in Hstep.
  cbn [task_idx target_achievements target_achievements_base isreptask
       past_achievements set_unlocked] in Hstep.
  assert ((task_idx self <? length (target_achievements self)) = true) as Hreal
    by (apply Nat.ltb_lt; by eapply lookup_lt_Some).
  rewrite Hreal, Htask, Hbase, Hrep in Hstep. cbn [bind] in Hstep.
  unfold counter_getitem, getitem, watched in *.
  destruct rep; rewrite Hcur, Hold in Hstep; cbn [bind] in Hstep.
  - destruct (0 <? cur - old)%Z eqn:Hgain.
    + apply Z.ltb_lt in Hgain. paths.
      all: try match goal with
               | H : false = true |- _ => discriminate H
               | H : true = false |- _ => discriminate H
               end.
      all: cbn [task_progress set_task_progress set_unlocked] in *.
      all: split;
        [ first [ intros Hone; destruct (zero_not_one Hone)
                | intros _; split; [done|]; intros _; by eexists _, _, _ ]
        | first [ done
                | intros (_ & Hfull);
                  destruct (Hfull eq_refl) as (? & ? & ? & ? & ? & ? & ?);
                  congruence ] ].
    + apply Z.ltb_ge in Hgain. cbn [bind] in Hstep.
      cbn [task_progress set_unlocked] in Hstep. rewrite Hbelow in Hstep.
      paths.
      all: try match goal with
               | H : false = true |- _ => discriminate H
               | H : true = false |- _ => discriminate H
               end.
      all: split; [intros Hone; destruct (zero_not_one Hone)|intros [? _]; lia].
  - destruct (0 <? cur - old)%Z eqn:Hgain.
    + apply Z.ltb_lt in Hgain. paths.
      all: try match goal with
               | H : false = true |- _ => discriminate H
               | H : true = false |- _ => discriminate H
               end.
      all: by split.
    + apply Z.ltb_ge in Hgain. paths.
      all: try match goal with
               | H : false = true |- _ => discriminate H
               | H : true = false |- _ => discriminate H
               end.
      all: split; [intros Hone; destruct (zero_not_one Hone)|intros [? _]; lia].
Qed.

(** ** Unlocked achievements *)

Lemma elem_of_unlocked_by achievements (name : string) :
  name ∈ unlocked_by achievements
  ↔ ∃ c, achievements !! name = Some c ∧ (0 < c)%Z.
Proof.
  unfold unlocked_by. rewrite elem_of_dom. split.
  - intros [c Hc]. apply map_lookup_filter_Some in Hc. by exists c.
  - intros (c & Hc & Hpos). exists c. by apply map_lookup_filter_Some.
Qed.

Lemma step_unlocked achievements self reward self' :
  _get_reward achievements self = OK (reward, self') →
  _unlocked self' = _unlocked self ∪ unlocked_by achievements.
Proof.
  intros Hstep.
  assert (Hnoted : _unlocked self ∪ unlocked_by achievements ∖ _unlocked self
                   = _unlocked self ∪ unlocked_by achievements).
  { rewrite (union_comm_L (_unlocked self)), difference_union_L.
    apply union_comm_L. }
  destruct (_get_reward_outcome _ _ _ _ Hstep)
    as [p _ _|p s1 s2 _ _ Hsel Hupd|task base rep cur old p c s1 s2
        _ _ _ _ _ _ _ Hsel Hupd].
  - exact Hnoted.
  - destruct (assignment_spec _ _ _ Hsel Hupd) as (Hs & c & _ & ->).
    rewrite <- Hnoted. exact (sel_unlocked _ _ Hs).
  - destruct (assignment_spec _ _ _ Hsel Hupd) as (Hs & c' & _ & ->).
    rewrite <- Hnoted. exact (sel_unlocked _ _ Hs).
Qed.

Lemma run_unlocked steps self results :
  run steps self = OK results →
  _unlocked (final self results)
  = _unlocked self ∪ ⋃ (unlocked_by <$> steps).
Proof.
  revert self results. induction steps as [|a steps IH]; intros self results Hrun.
  - cbn [run] in Hrun. inv_OK. unfold final. simpl.
    by rewrite (right_id_L ∅ (∪)).
  - cbn [run] in Hrun. paths. rename e into s1, a0 into rest.
    rewrite final_cons, (IH _ _ E0), (step_unlocked _ _ _ _ E).
    by rewrite fmap_cons, union_list_cons, (assoc_L (∪)).
Qed.

(** X10: [_unlocked] collects the achievements seen with a positive count.
    [reset] empties it; a step adds the names that have a positive count in
    the counter of the step and removes none, whichever path the step takes;
    at the end of a run it holds exactly the names that had a positive count
    in the counter of some step. *)
Theorem unlocked_collects_achievements
    (player_achievements : gmap string Z) (self0 self : Env G)
    (steps : list (gmap string Z)) (results : list (float * Env G)) :
  reset player_achievements self0 = OK self →
  run steps self = OK results →
  _unlocked self = ∅
  ∧ (∀ k achievements reward s,
       steps !! k = Some achievements →
       results !! k = Some (reward, s) →
       _unlocked s
       = _unlocked (state_before self results k) ∪ unlocked_by achievements)
  ∧ (∀ name,
       name ∈ _unlocked (final self results)
       ↔ ∃ achievements c,
           achievements ∈ steps
           ∧ achievements !! name = Some c ∧ (0 < c)%Z).
Proof.
  intros Hreset Hrun.
  destruct (reset_dictionaries _ _ _ Hreset) as (Hempty & _).
  split; [done|]. split.
  - intros k a reward s Ha Hres.
    destruct (run_lookup _ _ _ _ _ Hrun Ha) as (r' & s' & Hres' & Hstep).
    rewrite Hres in Hres'. injection Hres' as <- <-.
    exact (step_unlocked _ _ _ _ Hstep).
  - intros name. rewrite (run_unlocked _ _ _ Hrun), Hempty.
    rewrite (left_id_L ∅ (∪)), elem_of_union_list. split.
    + intros (X & HX & Hname).
      apply list_elem_of_fmap in HX as (a & -> & Ha).
      apply elem_of_unlocked_by in Hname as (c & Hc & Hpos). by exists a, c.
    + intros (a & c & Ha & Hc & Hpos). exists (unlocked_by a). split.
      * apply list_elem_of_fmap. by exists a.
      * apply elem_of_unlocked_by. by exists c.
Qed.

(** ** Evaluation *)

(** In evaluation, with the cursor inside an array of the real task indices
    and a real task active. *)
Definition evaluating_real self : Prop :=
  _specify_task self = specify_eval_task
  ∧ eval_task_seq self ≡ₚ seq 0 (length (target_achievements self))
  ∧ eval_id self < length (target_achievements self)
  ∧ task_idx self < length (target_achievements self).

(** A call of the evaluation selector that returns found the cursor inside
    the array, and leaves it inside. *)
Lemma eval_call (mid s1 : Env G) :
  _specify_task mid = specify_eval_task →
  eval_task_seq mid ≡ₚ seq 0 (length (target_achievements mid)) →
  call_specify_task mid = OK s1 →
  eval_id mid < length (target_achievements mid) ∧ evaluating_real s1.
Proof.
  intros Hmode Hperm Hcall.
  assert (Hlen : length (eval_task_seq mid) = length (target_achievements mid)).
  { rewrite Hperm. apply length_seq. }
  unfold call_specify_task in Hcall. rewrite Hmode in Hcall.
  destruct (eval_task_seq mid !! eval_id mid) as [idx|] eqn:Hidx.
  2:{ unfold _specify_eval_task, list_getitem in Hcall.
      rewrite Hidx in Hcall. discriminate Hcall. }
  pose proof (lookup_lt_Some _ _ _ Hidx) as Hlt. rewrite Hlen in Hlt.
  split; [done|].
  destruct (specify_eval_task_spec mid idx Hidx Hlen)
    as (s1' & Hcall' & Hsel & Hti & Hcur).
  rewrite Hcall in Hcall'. injection Hcall' as <-.
  assert (idx < length (target_achievements mid)) as Hreal.
  { apply list_elem_of_lookup_2 in Hidx. rewrite Hperm in Hidx.
    apply elem_of_seq in Hidx. lia. }
  unfold evaluating_real.
  rewrite (sel_slot _ _ Hsel), (sel_targets _ _ Hsel), Hti.
  split; [done|].
  destruct Hcur as [(? & -> & ->)|(? & -> & ->)]; repeat split; (lia || done).
Qed.

Lemma _get_reward_evaluating achievements self reward self' :
  evaluating_real self →
  _get_reward achievements self = OK (reward, self') →
  evaluating_real self'.
Proof.
  intros Hself Hstep. pose proof Hself as (Hmode & Hperm & _ & _).
  destruct (_get_reward_outcome _ _ _ _ Hstep)
    as [p _ _|p s1 s2 _ _ Hsel Hupd|task base rep cur old p c s1 s2
        _ _ _ _ _ _ _ Hsel Hupd].
  - exact Hself.
  - destruct (assignment_spec _ _ _ Hsel Hupd) as (_ & c & _ & ->).
    match type of Hsel with
    | call_specify_task ?mid = _ =>
        exact (proj2 (eval_call mid _ Hmode Hperm Hsel))
    end.
  - destruct (assignment_spec _ _ _ Hsel Hupd) as (_ & c' & _ & ->).
    match type of Hsel with
    | call_specify_task ?mid = _ =>
        exact (proj2 (eval_call mid _ Hmode Hperm Hsel))
    end.
Qed.

Lemma reset_evaluating (player_achievements : gmap string Z) self0 self :
  reset player_achievements (set_curriculum false self0) = OK self →
  target_achievements self0 ≠ [] ∧ evaluating_real self.
Proof.
  destruct (set_curriculum_eval self0) as (Hmode & Hid & Hperm & Hta).
  unfold reset. intros Hreset. paths.
  destruct (assignment_spec _ _ _ E E0) as (_ & c & _ & ->).
  match type of E with
  | call_specify_task ?mid = _ =>
      destruct (eval_call mid _ Hmode Hperm E) as [Hlt Heval]
  end.
  split; [|exact Heval].
  cbn [eval_id target_achievements set_given_achievements
       set_follow_achievements set_past_achievements set_unlocked] in Hlt.
  rewrite Hta in Hlt. intros Hnil. rewrite Hnil in Hlt. simpl in Hlt. lia.
Qed.

(** X11: evaluation assigns no decoy.  When [reset] is called after
    [set_curriculum(train=False)] and returns, the task list is not empty,
    and after [reset] and after every step of a run the selector is still
    the evaluation selector and the active task is a real task: neither the
    completion of a task nor the timeout ever makes a decoy active. *)
Theorem evaluation_assigns_no_decoy
    (player_achievements : gmap string Z) (self0 self : Env G)
    (steps : list (gmap string Z)) (results : list (float * Env G)) :
  reset player_achievements (set_curriculum false self0) = OK self →
  run steps self = OK results →
  target_achievements self0 ≠ []
  ∧ ∀ k, k ≤ length results →
      _specify_task (state_before self results k) = specify_eval_task
      ∧ task_idx (state_before self results k)
        < length (target_achievements (state_before self results k))
      ∧ is_Some (target_achievements (state_before self results k)
                   !! task_idx (state_before self results k)).
Proof.
  intros Hreset Hrun.
  destruct (reset_evaluating _ _ _ Hreset) as [Hne Hself].
  split; [done|]. intros k Hk.
  assert (evaluating_real (state_before self results k)) as (Hm & _ & _ & Hi).
  { apply (run_invariant evaluating_real steps self results); try done.
    intros a s r s' Hs Hstep. by eapply _get_reward_evaluating. }
  split; [done|]. split; [done|]. by apply lookup_lt_is_Some_2.
Qed.

(** X12: [reset] in either mode.  In training it returns for every task
    list, the empty one included.  In evaluation it returns when there is a
    task, and with an empty task list it raises [IndexError]: the array of
    task indices is empty and the selector reads its first entry. *)
Theorem reset_in_evaluation_needs_a_task
    (player_achievements : gmap string Z) (self : Env G) :
  is_OK (reset player_achievements (set_curriculum true self))
  ∧ (target_achievements self ≠ [] →
     is_OK (reset player_achievements (set_curriculum false self)))
  ∧ (target_achievements self = [] →
     reset player_achievements (set_curriculum false self) = Raise IndexError).
Proof.
  split; [|split].
  - apply reset_returns. intros Hmode. discriminate Hmode.
  - intros Hne. apply reset_returns.
    destruct (set_curriculum_eval self) as (Hmode & Hid & Hperm & Hta).
    intros _. rewrite Hid. split; [|done]. rewrite Hta.
    destruct (target_achievements self); [done|simpl; lia].
  - intros Hnil.
    destruct (set_curriculum_eval self) as (Hmode & Hid & Hperm & Hta).
    rewrite Hta, Hnil in Hperm. apply Permutation_nil_r in Hperm.
    unfold reset, call_specify_task.
    cbn [_specify_task set_given_achievements set_follow_achievements
         set_past_achievements set_unlocked].
    rewrite Hmode. unfold _specify_eval_task, list_getitem.
    cbn [eval_task_seq eval_id set_given_achievements set_follow_achievements
         set_past_achievements set_unlocked].
    by rewrite Hperm, Hid.
Qed.

(** ** Decoys *)

(** X13: a decoy is never rewarded.  With a decoy active, the step does not
    look at the entries of the achievement counter: whatever the counter
    holds, also nothing, the step returns, the reward is 0, no task is
    counted as followed, and the snapshot is replaced.  The decoy stays
    until the step counter has passed 300. *)
Theorem decoy_is_never_rewarded achievements self :
  length (target_achievements self) ≤ task_idx self →
  eval_ready self →
  given_ready self →
  ∃ self',
    _get_reward achievements self = OK (0%float, self')
    ∧ follow_achievements self' = follow_achievements self
    ∧ past_achievements self' = achievements
    ∧ (task_steps self + 1 ≤ 300 →
       task_idx self' = task_idx self ∧ task_enc self' = task_enc self
       ∧ task_steps self' = task_steps self + 1
       ∧ given_achievements self' = given_achievements self).
Proof.
  intros Hdecoy Heval Hgiven. unfold _get_reward.
  cbn [task_idx target_achievements set_unlocked].
  assert ((task_idx self <? length (target_achievements self)) = false) as ->
    by (apply Nat.ltb_ge; lia).
  cbn [bind task_steps set_task_steps set_unlocked].
  destruct (300 <? task_steps self + 1) eqn:Hover.
  - destruct (reassign_total (ticked achievements self) Heval Hgiven)
      as (s1 & c & Hcall & _ & Hupd & _).
    unfold ticked in Hcall. rewrite Hcall. cbn [bind]. rewrite Hupd.
    cbn [bind]. eexists. split; [done|].
    split; [exact (sel_follow _ _ (call_specify_task_selected _ _ Hcall))|].
    split; [done|]. apply Nat.ltb_lt in Hover. lia.
  - cbn [bind]. eexists. split; [done|]. by repeat split.
Qed.

(** ** Episodes that return *)


(** ** What [reset] forgets *)


(** ** The step counter *)

Lemma step_counter achievements self reward self' :
  _get_reward achievements self = OK (reward, self') →
  (task_steps self' = task_steps self + 1
   ∧ task_steps self' ≤ 300
   ∧ task_idx self' = task_idx self
   ∧ task_enc self' = task_enc self)
  ∨ task_steps self' = 0.
Proof.
  intros Hstep.
  destruct (_get_reward_outcome _ _ _ _ Hstep)
    as [p _ Hle|p s1 s2 _ _ Hsel Hupd|task base rep cur old p c s1 s2
        _ _ _ _ _ _ _ Hsel Hupd].
  - left. by repeat split.
  - right. destruct (assignment_spec _ _ _ Hsel Hupd) as (Hs & c & _ & ->).
    exact (sel_steps _ _ Hs).
  - right. destruct (assignment_spec _ _ _ Hsel Hupd) as (Hs & c' & _ & ->).
    exact (sel_steps _ _ Hs).
Qed.

(** X18: the step counter counts the steps since the last assignment and
    never passes the timeout.  [reset] leaves it at 0; a step that returns
    either assigns a task and leaves it at 0, or adds one to it and leaves
    the active task and its encoding as they are; after [reset] and after
    every step of a run it is at most 300. *)
Theorem step_counter_stays_within_timeout
    (player_achievements : gmap string Z) (self0 self : Env G)
    (steps : list (gmap string Z)) (results : list (float * Env G)) :
  reset player_achievements self0 = OK self →
  run steps self = OK results →
  task_steps self = 0
  ∧ (∀ k, k ≤ length results →
       task_steps (state_before self results k) ≤ 300)
  ∧ (∀ k reward s, results !! k = Some (reward, s) →
       (task_steps s = task_steps (state_before self results k) + 1
        ∧ task_steps s ≤ 300
        ∧ task_idx s = task_idx (state_before self results k)
        ∧ task_enc s = task_enc (state_before self results k))
       ∨ task_steps s = 0).
Proof.
  intros Hreset Hrun.
  assert (Hzero : task_steps self = 0).
  { unfold reset in Hreset. paths.
    destruct (assignment_spec _ _ _ E E0) as (Hs & c & _ & ->).
    exact (sel_steps _ _ Hs). }
  split; [done|]. split.
  - intros k Hk.
    apply (run_invariant (λ s, task_steps s ≤ 300) steps self results);
      try done; [|lia].
    intros a s r s' _ Hstep.
    destruct (step_counter _ _ _ _ Hstep) as [(_ & Hle & _)|Hz]; lia.
  - intros k reward s Hres.
    assert (is_Some (steps !! k)) as [a Ha].
    { apply lookup_lt_is_Some_2. rewrite <- (run_length _ _ _ Hrun).
      by eapply lookup_lt_Some. }
    destruct (run_lookup _ _ _ _ _ Hrun Ha) as (r' & s' & Hres' & Hstep).
    rewrite Hres in Hres'. injection Hres' as <- <-.
    exact (step_counter _ _ _ _ Hstep).
Qed.

(** ** The keys of the dictionaries *)

Lemma keys_of_zeros {A : Type} (f : A → string) (l : list A) :
  dom (list_to_map ((λ x, (f x, 0)) <$> l) : gmap string nat)
  = list_to_set (f <$> l).
Proof.
  rewrite dom_list_to_map_L. f_equal. rewrite <- list_fmap_compose. done.
Qed.

Lemma step_keys achievements self reward self' :
  _get_reward achievements self = OK (reward, self') →
  dom (follow_achievements self') = dom (follow_achievements self)
  ∧ dom (given_achievements self') = dom (given_achievements self).
Proof.
  intros Hstep.
  destruct (_get_reward_outcome _ _ _ _ Hstep)
    as [p _ _|p s1 s2 _ _ Hsel Hupd|task base rep cur old p c s1 s2
        _ _ _ _ _ _ Hc Hsel Hupd].
  - done.
  - destruct (assignment_spec _ _ _ Hsel Hupd) as (Hs & c & Hc & ->).
    split.
    { cbn [follow_achievements set_past_achievements set_task_progress
           set_given_achievements].
      by rewrite (sel_follow _ _ Hs). }
    cbn [given_achievements set_past_achievements set_task_progress
         set_given_achievements].
    by apply dom_insert_lookup_L.
  - destruct (assignment_spec _ _ _ Hsel Hupd) as (Hs & c' & Hc' & ->).
    split.
    + cbn [follow_achievements set_past_achievements set_task_progress
           set_given_achievements].
      rewrite (sel_follow _ _ Hs).
      cbn [follow_achievements set_follow_achievements].
      by apply dom_insert_lookup_L.
    + cbn [given_achievements set_past_achievements set_task_progress
           set_given_achievements].
      by apply dom_insert_lookup_L.
Qed.

(** X19: the dictionaries keep their keys.  After [reset] and after every
    step of a run, the keys of [follow_achievements] are the descriptors of
    the task list, and the keys of [given_achievements] are these and the
    [DUMMY_TASKS] keys of the decoys: no step adds a key or removes one. *)
Theorem dictionaries_keep_their_keys
    (player_achievements : gmap string Z) (self0 self : Env G)
    (steps : list (gmap string Z)) (results : list (float * Env G)) :
  reset player_achievements self0 = OK self →
  run steps self = OK results →
  ∀ k, k ≤ length results →
    dom (follow_achievements (state_before self results k))
    = list_to_set (target_achievements self0)
    ∧ dom (given_achievements (state_before self results k))
      = list_to_set (dummy_key <$> seq 0 DUMMY_TASKS)
        ∪ list_to_set (target_achievements self0).
Proof.
  intros Hreset Hrun k Hk.
  apply (run_invariant
           (λ s, dom (follow_achievements s)
                 = list_to_set (target_achievements self0)
                 ∧ dom (given_achievements s)
                   = list_to_set (dummy_key <$> seq 0 DUMMY_TASKS)
                     ∪ list_to_set (target_achievements self0))
           steps self results); try done.
  - intros a s r s' [Hf Hg] Hstep.
    destruct (step_keys _ _ _ _ Hstep) as [-> ->]. done.
  - destruct (reset_dictionaries _ _ _ Hreset)
      as (_ & _ & _ & _ & -> & c & Hc & ->).
    pose proof (keys_of_zeros (λ name : string, name) (target_achievements self0))
      as Hnames.
    rewrite list_fmap_id in Hnames. split; [exact Hnames|].
    rewrite dom_insert_lookup_L by done.
    by rewrite dom_union_L, Hnames, (keys_of_zeros dummy_key).
Qed.

(** ** The exceptions of a step *)

(** A step returns when the environment is ready and both counters hold the
    entry the active task is compared on. *)
Lemma _get_reward_returns_at achievements self :
  ready self →
  (∀ base rep,
     target_achievements_base self !! task_idx self = Some base →
     isreptask self !! task_idx self = Some rep →
     is_Some (achievements !! watched base rep)
     ∧ is_Some (past_achievements self !! watched base rep)) →
  is_OK (_get_reward achievements self).
Proof.
  intros Hready Hat.
  assert (Htail : ∀ (r : float) (s : Env G),
    ready s →
    is_OK (let* s' :=
             (let s := set_task_steps (task_steps s + 1) s in
              if 300 <? task_steps s then
                let* s := call_specify_task s in
                let* s := update_given_ach s in
                OK (set_task_progress 0 s)
              else OK s) in
           OK (r, set_past_achievements achievements s'))).
  { intros r s Hs. cbn zeta. cbn [task_steps set_task_steps].
    destruct (300 <? task_steps s + 1); [|by eexists].
    destruct (reassign_total (set_task_steps (task_steps s + 1) s))
      as (s1 & c & Hcall & _ & Hupd & _);
      [exact (ready_eval _ Hs)|exact (ready_given _ Hs)|].
    rewrite Hcall. cbn [bind]. rewrite Hupd. by eexists. }
  assert (Hdone : ∀ (s : Env G) (task : string),
    ready s → is_Some (follow_achievements s !! task) →
    ∃ follow s1 s2,
      incr_item (follow_achievements s) task = OK follow
      ∧ call_specify_task (set_follow_achievements follow s) = OK s1
      ∧ update_given_ach s1 = OK s2).
  { intros s task Hs [c Hc]. unfold incr_item, getitem. rewrite Hc.
    cbn [bind].
    destruct (reassign_total
                (set_follow_achievements (<[task := c + 1]> (follow_achievements s)) s))
      as (s1 & c' & Hcall & _ & Hupd & _);
      [exact (ready_eval _ Hs)|exact (ready_given _ Hs)|].
    by eexists _, _, _. }
  set (s0 := set_unlocked
               (_unlocked self
                ∪ dom (filter (λ kv, (0 < kv.2)%Z) achievements) ∖ _unlocked self)
               self).
  assert (ready s0) as Hs0.
  { apply (ready_frame self); try done. apply (ready_eval _ Hready). }
  unfold _get_reward. fold s0. cbn zeta.
  change (task_idx s0) with (task_idx self).
  change (target_achievements s0) with (target_achievements self).
  change (target_achievements_base s0) with (target_achievements_base self).
  change (isreptask s0) with (isreptask self).
  change (past_achievements s0) with (past_achievements self).
  destruct (task_idx self <? length (target_achievements self)) eqn:Hreal.
  2:{ cbn [bind]. apply (Htail 0%float s0 Hs0). }
  apply Nat.ltb_lt in Hreal.
  destruct (lookup_lt_is_Some_2 (target_achievements self) (task_idx self))
    as [task Htask]; [done|].
  destruct (lookup_lt_is_Some_2 (target_achievements_base self) (task_idx self))
    as [base Hbase]; [by rewrite (ready_base _ Hready)|].
  destruct (lookup_lt_is_Some_2 (isreptask self) (task_idx self))
    as [rep Hrep]; [by rewrite (ready_rep _ Hready)|].
  destruct (Hat _ _ Hbase Hrep) as [[cur Hc] [old Ho]].
  assert (is_Some (follow_achievements s0 !! task)) as Hfollow.
  { apply (ready_follow _ Hready). by eapply list_elem_of_lookup_2. }
  unfold list_getitem. rewrite Htask, Hbase, Hrep. cbn [bind].
  unfold counter_getitem, getitem. unfold watched in Hc, Ho.
  destruct rep; rewrite Hc, Ho; cbn [bind].
  - destruct (0 <? cur - old)%Z.
    + destruct (ready_counts _ Hready _ _ Htask Hrep)
        as (tok & n & q & Htok & Hn & Hq).
      rewrite Htok. cbn [bind]. rewrite Hn. cbn [bind]. rewrite Hq.
      cbn [bind]. cbn [task_progress set_task_progress].
      set (s1 := set_task_progress _ s0).
      assert (ready s1) as Hs1.
      { apply (ready_frame self); try done. apply (ready_eval _ Hready). }
      destruct (PrimFloat.leb 1 _).
      * destruct (Hdone s1 task Hs1 Hfollow) as (f & t1 & t2 & Hf & Ht1 & Ht2).
        rewrite Hf. cbn [bind]. rewrite Ht1. cbn [bind]. rewrite Ht2.
        by eexists.
      * cbn [bind]. apply (Htail 0%float s1 Hs1).
    + cbn [bind]. destruct (PrimFloat.leb 1 (task_progress s0)).
      * destruct (Hdone s0 task Hs0 Hfollow) as (f & t1 & t2 & Hf & Ht1 & Ht2).
        rewrite Hf. cbn [bind]. rewrite Ht1. cbn [bind]. rewrite Ht2.
        by eexists.
      * cbn [bind]. apply (Htail 0%float s0 Hs0).
  - destruct (0 <? cur - old)%Z.
    + destruct (Hdone s0 task Hs0 Hfollow) as (f & t1 & t2 & Hf & Ht1 & Ht2).
      rewrite Hf. cbn [bind]. rewrite Ht1. cbn [bind]. rewrite Ht2.
      by eexists.
    + cbn [bind]. apply (Htail 0%float s0 Hs0).
Qed.

(** X20: the only exception of a step.  From an environment that is ready
    (as [reset] leaves it and every step keeps it), a step raises only when
    a real task is active and the entry the task is compared on is missing
    from the achievement counter or from the snapshot, and what it raises is
    [KeyError] for that entry: never [IndexError], [ValueError] or
    [ZeroDivisionError], and never anything while a decoy is active. *)
Theorem step_raises_only_key_error achievements self (e : exn) :
  ready self →
  _get_reward achievements self = Raise e →
  ∃ task base rep,
    target_achievements self !! task_idx self = Some task
    ∧ target_achievements_base self !! task_idx self = Some base
    ∧ isreptask self !! task_idx self = Some rep
    ∧ e = KeyError (watched base rep)
    ∧ (achievements !! watched base rep = None
       ∨ past_achievements self !! watched base rep = None).
Proof.
  intros Hready Hraise.
  assert (Hnot : ¬ is_OK (_get_reward achievements self)).
  { intros [x Hx]. rewrite Hx in Hraise. discriminate Hraise. }
  destruct (target_achievements self !! task_idx self) as [task|] eqn:Htask.
  2:{ destruct Hnot. apply _get_reward_returns_at; [done|].
      intros base rep Hbase _. apply lookup_ge_None in Htask.
      apply lookup_lt_Some in Hbase. rewrite (ready_base _ Hready) in Hbase.
      lia. }
  pose proof (lookup_lt_Some _ _ _ Htask) as Hreal.
  destruct (lookup_lt_is_Some_2 (target_achievements_base self) (task_idx self))
    as [base Hbase]; [by rewrite (ready_base _ Hready)|].
  destruct (lookup_lt_is_Some_2 (isreptask self) (task_idx self))
    as [rep Hrep]; [by rewrite (ready_rep _ Hready)|].
  exists task, base, rep. do 3 (split; [done|]).
  apply Nat.ltb_lt in Hreal.
  unfold _get_reward, list_getitem in Hraise.
  cbn [task_idx target_achievements target_achievements_base isreptask
       past_achievements set_unlocked] in Hraise.
  rewrite Hreal, Htask, Hbase, Hrep in Hraise. cbn [bind] in Hraise.
  destruct (achievements !! watched base rep) as [cur|] eqn:Hcur.
  - destruct (past_achievements self !! watched base rep) as [old|] eqn:Hold.
    + destruct Hnot. apply _get_reward_returns_at; [done|].
      intros base' rep' Hbase' Hrep'.
      rewrite Hbase in Hbase'. rewrite Hrep in Hrep'.
      injection Hbase' as <-. injection Hrep' as <-. by rewrite Hcur, Hold.
    + unfold counter_getitem, getitem, watched in *.
      destruct rep; rewrite Hcur, Hold in Hraise; cbn [bind] in Hraise;
        injection Hraise as <-; split; auto.
  - unfold counter_getitem, getitem, watched in *.
    destruct rep; rewrite Hcur in Hraise; cbn [bind] in Hraise;
      injection Hraise as <-; split; auto.
Qed.

End Episode.

(** * Evaluation passes and task descriptors *)

Section Passes.

Context {G : Type} {RS : RandomState G} {SY : Synonyms}.
Implicit Types (self : Env G).

Lemma select_many_add (a b : nat) self :
  select_many (a + b) self
  = let* (first, s1) := select_many a self in
    let* (rest, s2) := select_many b s1 in
    OK (first ++ rest, s2).
Proof.
  revert self. induction a as [|a IH]; intros self.
  - cbn [Nat.add select_many bind].
    by destruct (select_many b self) as [[rest s2]|].
  - cbn [Nat.add select_many].
    destruct (call_specify_task self) as [s|]; [|done]. cbn [bind].
    rewrite IH. destruct (select_many a s) as [[first s1]|]; [|done].
    cbn [bind]. by destruct (select_many b s1) as [[rest s2]|].
Qed.

Lemma mjoin_replicate_nil {A : Type} (m : nat) :
  mjoin (replicate m ([] : list A)) = [].
Proof. induction m as [|m IH]; [done|]. simpl. exact IH. Qed.

(** X16: evaluation passes follow one another.  From the start of a pass,
    [m * len(target_achievements)] calls of the evaluation selector return
    and make up [m] passes: the indices they select are those of [m] copies
    of the task list, so that every real task is selected [m] times and a
    decoy never; the cursor is back at the start, ready for the next
    pass. *)
Theorem eval_passes_select_each_task_equally (m : nat) self :
  _specify_task self = specify_eval_task →
  eval_id self = 0 →
  eval_task_seq self ≡ₚ seq 0 (length (target_achievements self)) →
  ∃ chosen self',
    select_many (m * length (target_achievements self)) self
    = OK (chosen, self')
    ∧ chosen ≡ₚ mjoin (replicate m (seq 0 (length (target_achievements self))))
    ∧ length chosen = m * length (target_achievements self)
    ∧ (∀ i, i ∈ chosen → i < length (target_achievements self))
    ∧ _specify_task self' = specify_eval_task
    ∧ target_achievements self' = target_achievements self
    ∧ eval_id self' = 0
    ∧ eval_task_seq self' ≡ₚ seq 0 (length (target_achievements self')).
Proof.
  assert (Hin : ∀ (k n : nat) (chosen : list nat),
    chosen ≡ₚ mjoin (replicate k (seq 0 n)) →
    length chosen = k * n ∧ ∀ i, i ∈ chosen → i < n).
  { intros k n chosen Hc. split.
    - rewrite Hc. clear Hc. induction k as [|k IH]; [done|].
      change (mjoin (replicate (S k) (seq 0 n)))
        with (seq 0 n ++ mjoin (replicate k (seq 0 n))).
      rewrite length_app, length_seq, IH. simpl. lia.
    - intros i. rewrite Hc. clear Hc. induction k as [|k IH].
      + by intros ?%elem_of_nil.
      + change (mjoin (replicate (S k) (seq 0 n)))
          with (seq 0 n ++ mjoin (replicate k (seq 0 n))).
        rewrite elem_of_app, elem_of_seq.
        intros [?|?]; [lia|by apply IH]. }
  revert self. induction m as [|m IH]; intros self Hmode Hid Hperm.
  - exists [], self. cbn [Nat.mul select_many].
    change (mjoin (replicate 0 (seq 0 (length (target_achievements self)))))
      with ([] : list nat).
    split; [done|]. split; [done|]. split; [done|].
    split; [by intros i ?%elem_of_nil|]. done.
  - destruct (length (target_achievements self)) as [|n] eqn:Hn.
    + exists [], self. change (seq 0 0) with ([] : list nat).
      rewrite Nat.mul_0_r, mjoin_replicate_nil.
      cbn [select_many]. split; [done|]. split; [done|]. split; [done|].
      split; [by intros i ?%elem_of_nil|]. by rewrite Hn.
    + assert (Hlen : length (eval_task_seq self)
                     = length (target_achievements self)).
      { rewrite Hn, Hperm. apply length_seq. }
      destruct (eval_pass_from n self Hmode Hlen)
        as (s1 & Hpass & Hm1 & Hta1 & Hid1 & Hperm1); [by rewrite Hid, Hn|].
      rewrite Hid, drop_0 in Hpass.
      destruct (IH s1)
        as (rest & s2 & Hrest & Hp & _ & _ & Hm2 & Hta2 & Hid2 & Hperm2).
      { done. }
      { done. }
      { by rewrite Hperm1, Hta1, Hn. }
      exists (eval_task_seq self ++ rest), s2.
      rewrite Hta1, Hn in Hrest, Hp.
      assert (Hall : eval_task_seq self ++ rest
                     ≡ₚ mjoin (replicate (S m) (seq 0 (S n)))).
      { change (mjoin (replicate (S m) (seq 0 (S n))))
          with (seq 0 (S n) ++ mjoin (replicate m (seq 0 (S n)))).
        by rewrite Hperm, Hp. }
      split.
      { change (S m * S n) with (S n + m * S n).
        rewrite select_many_add, Hpass. cbn [bind]. by rewrite Hrest. }
      split; [done|].
      destruct (Hin (S m) (S n) _ Hall) as [Hl Hi].
      split; [done|]. split; [done|]. split; [done|].
      split; [by rewrite Hta2|]. split; [done|]. done.
Qed.

End Passes.

Section Descriptors.

(** [split] and [join] on one separator. *)
Lemma split_not_nil (sep : Ascii.ascii) (s : string) : split sep s ≠ [].
Proof.
  destruct s as [|c s]; [done|]. cbn [split].
  destruct (Ascii.eqb c sep); [done|]. by destruct (split sep s).
Qed.

Lemma split_app (sep : Ascii.ascii) (a b : string) :
  split sep (a +:+ String sep b) = split sep a ++ split sep b.
Proof.
  induction a as [|c a IH].
  - change ("" +:+ String sep b) with (String sep b). cbn [split].
    by rewrite Ascii.eqb_refl.
  - rewrite string_app_cons. cbn [split]. rewrite IH.
    destruct (Ascii.eqb c sep); [done|].
    pose proof (split_not_nil sep a) as Hne.
    by destruct (split sep a).
Qed.

Lemma join_cons_sep (sep w : string) (ws : list string) :
  ws ≠ [] → join sep (w :: ws) = w +:+ sep +:+ join sep ws.
Proof. by destruct ws. Qed.

Lemma join_split (sep : Ascii.ascii) (s : string) :
  join (String sep "") (split sep s) = s.
Proof.
  induction s as [|c s IH]; [done|]. cbn [split].
  destruct (Ascii.eqb c sep) eqn:Hc.
  - apply Ascii.eqb_eq in Hc as ->.
    rewrite join_cons_sep by apply split_not_nil. by rewrite IH.
  - pose proof (split_not_nil sep s) as Hne.
    destruct (split sep s) as [|w ws]; [done|].
    destruct ws as [|w' ws].
    + cbn in IH. by rewrite <- IH.
    + rewrite join_cons_sep in IH by done. rewrite join_cons_sep by done.
      rewrite string_app_cons. by rewrite IH.
Qed.

(** X17: the entry a repeat task is compared on.  [split] and [join] on the
    underscore are inverse to each other, so the descriptor of a repeat task
    that ends in an underscore and a count is compared on the descriptor
    without them: ["collect_wood_10"] on ["collect_wood"].  A base
    descriptor without an underscore is compared on the empty string. *)
Theorem repeat_task_is_compared_without_count (base tok : string) :
  split "_" tok = [tok] →
  join "_" (split "_" (base +:+ "_" +:+ tok)) = base +:+ "_" +:+ tok
  ∧ list_last (split "_" (base +:+ "_" +:+ tok)) = OK tok
  ∧ watched (base +:+ "_" +:+ tok) true = base
  ∧ watched (base +:+ "_" +:+ tok) false = base +:+ "_" +:+ tok
  ∧ watched tok true = "".
Proof.
  intros Htok. split; [apply join_split|]. unfold watched.
  change ("_" +:+ tok) with (String "_" tok). rewrite split_app, Htok.
  split; [|split; [|split]].
  - unfold list_last. by rewrite last_snoc.
  - rewrite removelast_last. apply join_split.
  - done.
  - done.
Qed.

End Descriptors.

(** * Examples *)

Section Examples.

Import Script Demo.

(** The scenario of the specification: with ["collect_wood_5"] active, five
    steps that each collect one wood return rewards [0, 0, 0, 0, 1], and the
    task is counted as followed once. *)
Example repeat_five_fires_on_fifth_gain :
  (let* self := reset (counter 0 0) (blank specify_curri_task [1]) in
   let* results := run (wood_gains 0 5) self in
   OK (target_achievements self !! task_idx self,
       fst <$> results,
       follow_achievements (final self results) !! "collect_wood_5"))
  = OK (Some "collect_wood_5",
        [0; 0; 0; 0; 1]%float,
        Some 1).
Proof. vm_compute. reflexivity. Qed.

(** How many gains a repeat task takes, for each count of the vocabulary:
    the count itself, except for 6, 7 and 10, which take one more. *)
Example gains_needed_by_count :
  (λ k : nat,
     let* self := reset (counter 0 0) (wood_blank [k]) in
     let* results := run (wood_gains 0 12) self in
     OK (target_achievements self !! task_idx self,
         first_reward (fst <$> results))) <$> seq 0 9
  = [ OK (Some "collect_wood_2", Some 2);
      OK (Some "collect_wood_3", Some 3);
      OK (Some "collect_wood_4", Some 4);
      OK (Some "collect_wood_5", Some 5);
      OK (Some "collect_wood_6", Some 7);
      OK (Some "collect_wood_7", Some 8);
      OK (Some "collect_wood_8", Some 8);
      OK (Some "collect_wood_9", Some 9);
      OK (Some "collect_wood_10", Some 11) ].
Proof. vm_compute. reflexivity. Qed.

(** C1: with ["collect_wood_10"] active, ten steps that each collect one
    wood all return reward 0: ten additions of [1.0 / 10.0] leave
    [task_progress] below [1.0], the task is still active and not counted as
    followed.  The reward comes with the eleventh gain. *)
Theorem repeat_ten_fires_on_eleventh_gain :
  (let* self := reset (counter 0 0) (blank specify_curri_task [2]) in
   let* results := run (wood_gains 0 10) self in
   let after_ten := final self results in
   let* (reward, after_eleven) := _get_reward (counter 11 0) after_ten in
   OK (target_achievements self !! task_idx self,
       fst <$> results,
       task_idx after_ten,
       PrimFloat.ltb (task_progress after_ten) 1,
       follow_achievements after_ten !! "collect_wood_10",
       reward,
       follow_achievements after_eleven !! "collect_wood_10"))
  = OK (Some "collect_wood_10",
        [0; 0; 0; 0; 0; 0; 0; 0; 0; 0]%float,
        2,
        true,
        Some 0,
        1%float,
        Some 1).
Proof. vm_compute. reflexivity. Qed.

(** *** The evaluation cursor *)

(** Evaluation mode, the array shuffled to [1, 2, 3, 0]. *)
Definition evaluating : Env (list nat) :=
  set_curriculum false (blank specify_curri_task [1; 3]).

Lemma eval_pass_selects_each_task_once_witness :
  ∃ chosen self',
    select_many 4 evaluating = OK (chosen, self')
    ∧ chosen ≡ₚ seq 0 4
    ∧ NoDup chosen
    ∧ (∀ i, i ∈ chosen ↔ i < 4)
    ∧ _specify_task self' = specify_eval_task
    ∧ eval_id self' = 0
    ∧ eval_task_seq self' ≡ₚ seq 0 (length (target_achievements self')).
Proof.
  destruct (set_curriculum_eval (blank specify_curri_task [1; 3]))
    as (Hmode & Hid & Hperm & _).
  exact (eval_pass_selects_each_task_once evaluating Hmode Hid Hperm).
Defined.

(** C2 as stated fails: [len(target_achievements)] consecutive calls that
    begin inside a pass run into the next one, which is shuffled anew.  With
    four tasks, the array first [0, 1, 2, 3] and then [1, 2, 3, 0], the four
    calls after the first select 1, 2, 3 and 1 again, and never 0. *)
Lemma eval_window_across_passes_repeats_a_task :
  (let* s1 := call_specify_task
                (set_curriculum false (blank specify_curri_task [0; 1])) in
   let* (chosen, s5) := select_many 4 s1 in
   OK (_specify_task s1, length (target_achievements s1), chosen))
  = OK (specify_eval_task, 4, [1; 2; 3; 1])
  ∧ (0 ∉ [1; 2; 3; 1])
  ∧ ¬ NoDup [1; 2; 3; 1].
Proof.
  split; [vm_compute; reflexivity|]. split.
  - intros Hin. repeat (apply elem_of_cons in Hin as [Hin|Hin]; [lia|]).
    by apply elem_of_nil in Hin.
  - intros Hnd. apply NoDup_cons in Hnd as [Hnotin _]. apply Hnotin.
    set_solver.
Qed.

(** *** The reward step *)

(** ["place_table"] is active and a table has just been placed. *)
Definition placing : Env (list nat) := started specify_curri_task [3].

Definition placed : float * Env (list nat) :=
  returned (0%float, placing) (_get_reward (counter 0 1) placing).

Lemma reward_is_zero_or_one_witness :
  _get_reward (counter 0 1) placing = OK (placed.1, placed.2)
  ∧ (placed.1 = 0%float ∨ placed.1 = 1%float).
Proof.
  assert (Hstep : _get_reward (counter 0 1) placing = OK (placed.1, placed.2))
    by (unfold placed; apply returned_pair; vm_compute; reflexivity).
  split; [exact Hstep|].
  exact (reward_is_zero_or_one (counter 0 1) placing placed.1 placed.2 Hstep).
Defined.

Lemma missing_achievement_key_is_fatal_witness :
  _get_reward {[ "collect_wood" := 0%Z ]} placing
  = Raise (KeyError "place_table").
Proof.
  apply (missing_achievement_key_is_fatal
           {[ "collect_wood" := 0%Z ]} placing "place_table" "place_table" false);
    vm_compute; reflexivity.
Defined.

(** Three steps: a table is placed, nothing happens, wood is collected. *)
Definition three_steps : list (gmap string Z) :=
  [counter 0 1; counter 0 1; counter 1 1].

Definition three_results : list (float * Env (list nat)) :=
  returned [] (run three_steps placing).

Lemma snapshot_replaced_every_step_witness :
  ∃ reward s,
    three_results !! 1 = Some (reward, s)
    ∧ _get_reward (counter 0 1) (state_before placing three_results 1)
      = OK (reward, s)
    ∧ past_achievements s = counter 0 1
    ∧ (∀ j, 1 = S j →
         Some (past_achievements (state_before placing three_results 1))
         = three_steps !! j).
Proof.
  assert (Hrun : run three_steps placing = OK three_results)
    by (unfold three_results; apply returned_spec; vm_compute; reflexivity).
  exact (snapshot_replaced_every_step three_steps placing three_results Hrun
           1 (counter 0 1) eq_refl).
Defined.

Lemma given_counts_count_assignments_witness :
  reset (counter 0 0) (blank specify_curri_task [3]) = OK placing
  ∧ run three_steps placing = OK three_results
  ∧ fst <$> three_results = [1; 0; 1]%float
  ∧ assignments three_results = 2
  ∧ total (given_achievements (final placing three_results))
    = 1 + assignments three_results.
Proof.
  assert (Hreset : reset (counter 0 0) (blank specify_curri_task [3]) = OK placing)
    by (unfold placing, started; apply returned_spec; vm_compute; reflexivity).
  assert (Hrun : run three_steps placing = OK three_results)
    by (unfold three_results; apply returned_spec; vm_compute; reflexivity).
  split; [exact Hreset|]. split; [exact Hrun|].
  split; [vm_compute; reflexivity|]. split; [vm_compute; reflexivity|].
  exact (proj2 (proj2 (given_counts_count_assignments
                         (counter 0 0) (blank specify_curri_task [3]) placing
                         three_steps three_results Hreset Hrun))).
Defined.

(** *** The timeout *)

(** ["collect_wood"] is active; the next draw of the selector is 3. *)
Definition stalled : Env (list nat) := started specify_curri_task [0; 3].

Lemma timeout_reassigns_witness :
  ∃ results s',
    run (replicate 300 (counter 0 0) ++ [counter 0 0]) stalled
    = OK (results ++ [(0%float, s')])
    ∧ length results = 300
    ∧ (∀ k r s, results !! k = Some (r, s) →
         r = 0%float ∧ task_idx s = task_idx stalled
         ∧ given_achievements s = given_achievements stalled
         ∧ task_steps s = S k)
    ∧ (∃ before chosen,
         call_specify_task before = OK chosen
         ∧ task_idx before = task_idx stalled
         ∧ task_steps before = 301
         ∧ task_idx s' = task_idx chosen
         ∧ task_enc s' = task_enc chosen)
    ∧ task_steps s' = 0
    ∧ task_progress s' = 0%float
    ∧ (∃ c, given_achievements stalled !! given_slot s' = Some c
            ∧ given_achievements s'
              = <[given_slot s' := c + 1]> (given_achievements stalled))
    ∧ (given_slot s' ≠ given_slot stalled →
       given_achievements s' !! given_slot stalled
       = given_achievements stalled !! given_slot stalled).
Proof.
  assert (Hreset : reset (counter 0 0) (blank specify_curri_task [0; 3])
                   = OK stalled)
    by (unfold stalled, started; apply returned_spec; vm_compute; reflexivity).
  assert (Hblank : eval_ready (blank specify_curri_task [0; 3]))
    by (intros Hmode; discriminate Hmode).
  destruct (reset_ready _ _ _ Hblank Hreset) as (Heval & Hgiven & Hsteps & Hprog).
  assert (Hquiet : quiet stalled (past_achievements stalled)
                     (replicate 300 (counter 0 0) ++ [counter 0 0]) = true)
    by (vm_compute; reflexivity).
  exact (timeout_reassigns stalled (replicate 300 (counter 0 0)) (counter 0 0)
           Heval Hgiven Hsteps Hprog eq_refl Hquiet).
Defined.

(** C3 as stated fails in its last part: the selector draws with
    replacement, so it can choose the abandoned task again, and then the
    given count of that task does go up.  Here every draw is 0: after
    [reset] the count of ["collect_wood"] is 1, and after 301 steps without
    a gain the task is ["collect_wood"] again and its count is 2. *)
Lemma timeout_can_choose_the_abandoned_task_again :
  (let* self := reset (counter 0 0) (blank specify_curri_task []) in
   let* results := run (replicate 301 (counter 0 0)) self in
   let s' := final self results in
   OK (given_slot self,
       given_achievements self !! given_slot self,
       fst <$> drop 300 results,
       task_steps s',
       given_slot s',
       given_achievements s' !! given_slot self))
  = OK ("collect_wood", Some 1, [0%float], 0, "collect_wood", Some 2).
Proof. vm_compute. reflexivity. Qed.

End Examples.

(** * Instances *)

Section Instances.

Import Script Demo.

(** The element at a position of a list of pairs, by projections. *)
Lemma lookup_pair {A B : Type} (d : A * B) (l : list (A * B)) (k : nat) :
  k < length l →
  l !! k = Some ((default d (l !! k)).1, (default d (l !! k)).2).
Proof.
  intros Hk. destruct (lookup_lt_is_Some_2 l k Hk) as [[a b] ->]. done.
Qed.


Lemma demo_counts (slot : selector) (script : list nat) (i : nat) (task : string) :
  target_achievements (blank slot script) !! i = Some task →
  isreptask (blank slot script) !! i = Some true →
  ∃ tok n q, list_last (split "_"%char task) = OK tok
             ∧ py_float tok = OK n ∧ float_div 1 n = OK q.
Proof.
  intros Htask Hrep.
  destruct i as [|[|[|[|i]]]]; simpl in Htask, Hrep; try discriminate Hrep;
    injection Htask as <-; eexists _, _, _; vm_compute; eauto.
Qed.

Lemma placing_reset :
  reset (counter 0 0) (blank specify_curri_task [3]) = OK placing.
Proof. unfold placing, started. apply returned_spec. vm_compute. reflexivity. Qed.

Lemma three_results_run : run three_steps placing = OK three_results.
Proof. unfold three_results. apply returned_spec. vm_compute. reflexivity. Qed.

Lemma three_results_length : length three_results = 3.
Proof. vm_compute. reflexivity. Qed.


Lemma real_encodings_equal_iff_witness :
  ∃ e1 e2,
    _encode_task 0 placing = OK (e1, placing)
    ∧ _encode_task 0 stalled = OK (e2, stalled)
    ∧ (e1 = e2
       ↔ ∀ w, w ∈ ENC_ORDER →
           (w ∈ split "_" "place_table" ↔ w ∈ split "_" "collect_wood")).
Proof.
  apply (real_encodings_equal_iff 0 0 placing stalled
           "place_table" "collect_wood"); vm_compute; reflexivity.
Defined.

Lemma decoy_encoding_ignores_index_witness :
  encoding_of (_encode_task 0 (set_task_idx 4 (blank specify_curri_task [1; 0; 1])))
  = encoding_of
      (_encode_task 0 (set_task_idx 1000 (blank specify_curri_task [1; 0; 1]))).
Proof.
  apply (decoy_encoding_ignores_index 0 0 4 1000
           (blank specify_curri_task [1; 0; 1])); vm_compute; lia.
Defined.

Lemma observation_describes_active_task_witness :
  within observation_space (_obs (state_before placing three_results 3))
  ∧ _decode_task (_obs (state_before placing three_results 3))
    = OK (description (state_before placing three_results 3)).
Proof.
  apply (observation_describes_active_task (counter 0 0)
           (blank specify_curri_task [3]) placing three_steps three_results
           placing_reset three_results_run 3).
  rewrite three_results_length. lia.
Defined.

Lemma followed_counts_rewards_witness :
  rewarded three_results = 2
  ∧ total (follow_achievements (final placing three_results))
    = rewarded three_results.
Proof.
  split; [vm_compute; reflexivity|].
  exact (proj2 (proj2 (followed_counts_rewards (counter 0 0)
                         (blank specify_curri_task [3]) placing three_steps
                         three_results placing_reset three_results_run))).
Defined.

Lemma followed_at_most_given_witness :
  (∀ name c,
     follow_achievements (state_before placing three_results 3) !! name
     = Some c →
     ∃ g, given_achievements (state_before placing three_results 3) !! name
          = Some g ∧ c ≤ g)
  ∧ (∀ task c,
       target_achievements (state_before placing three_results 3)
         !! task_idx (state_before placing three_results 3) = Some task →
       follow_achievements (state_before placing three_results 3) !! task
       = Some c →
       ∃ g, given_achievements (state_before placing three_results 3) !! task
            = Some g ∧ c < g).
Proof.
  assert (Hk : 3 ≤ length three_results) by (rewrite three_results_length; lia).
  exact (followed_at_most_given (counter 0 0)
           (blank specify_curri_task [3]) placing three_steps
           three_results placing_reset three_results_run 3 Hk).
Defined.

(** The first of the three steps: a table is placed while ["place_table"]
    is active. *)
Lemma reward_needs_a_gain_witness :
  (default (0%float, placing) (three_results !! 0)).1 = 1%float
  ∧ PrimFloat.leb 1 (task_progress (state_before placing three_results 0))
    = false
  ∧ PrimFloat.leb 1
      (task_progress (default (0%float, placing) (three_results !! 0)).2)
    = false
  ∧ ((default (0%float, placing) (three_results !! 0)).1 = 1%float →
     ∃ task base rep cur old,
       target_achievements (state_before placing three_results 0)
         !! task_idx (state_before placing three_results 0) = Some task
       ∧ target_achievements_base (state_before placing three_results 0)
           !! task_idx (state_before placing three_results 0) = Some base
       ∧ isreptask (state_before placing three_results 0)
           !! task_idx (state_before placing three_results 0) = Some rep
       ∧ counter 0 1 !! watched base rep = Some cur
       ∧ past_achievements (state_before placing three_results 0)
           !! watched base rep = Some old
       ∧ (0 < cur - old)%Z).
Proof.
  assert (Hone : (default (0%float, placing) (three_results !! 0)).1 = 1%float)
    by (vm_compute; reflexivity).
  assert (Hres : three_results !! 0
                 = Some ((default (0%float, placing) (three_results !! 0)).1,
                         (default (0%float, placing) (three_results !! 0)).2))
    by (apply lookup_pair; rewrite three_results_length; lia).
  assert (Hstep : three_steps !! 0 = Some (counter 0 1)) by reflexivity.
  split; [exact Hone|].
  exact (reward_needs_a_gain (counter 0 0)
           (blank specify_curri_task [3]) placing three_steps
           three_results 0 (counter 0 1)
           (default (0%float, placing) (three_results !! 0)).1
           (default (0%float, placing) (three_results !! 0)).2
           placing_reset three_results_run Hstep Hres).
Defined.

Lemma reward_iff_gain_completes_task_witness :
  placed.1 = 1%float
  ∧ (placed.1 = 1%float
     ↔ (0 < 1 - 0)%Z
       ∧ (false = true →
          ∃ tok n q,
            list_last (split "_"%char "place_table") = OK tok
            ∧ py_float tok = OK n
            ∧ float_div 1 n = OK q
            ∧ PrimFloat.leb 1 (PrimFloat.add (task_progress placing) q)
              = true)).
Proof.
  assert (Hstep : _get_reward (counter 0 1) placing = OK (placed.1, placed.2))
    by (unfold placed; apply returned_pair; vm_compute; reflexivity).
  assert (Htask : target_achievements placing !! task_idx placing
                  = Some "place_table") by (vm_compute; reflexivity).
  assert (Hbase : target_achievements_base placing !! task_idx placing
                  = Some "place_table") by (vm_compute; reflexivity).
  assert (Hrep : isreptask placing !! task_idx placing = Some false)
    by (vm_compute; reflexivity).
  assert (Hcur : counter 0 1 !! watched "place_table" false = Some 1%Z)
    by (vm_compute; reflexivity).
  assert (Hold : past_achievements placing !! watched "place_table" false
                 = Some 0%Z) by (vm_compute; reflexivity).
  assert (Hbelow : PrimFloat.leb 1 (task_progress placing) = false)
    by (vm_compute; reflexivity).
  split; [vm_compute; reflexivity|].
  exact (reward_iff_gain_completes_task (counter 0 1) placing placed.1 placed.2
           "place_table" "place_table" false 1 0
           Hstep Htask Hbase Hrep Hcur Hold Hbelow).
Defined.

Lemma unlocked_collects_achievements_witness :
  _unlocked placing = ∅
  ∧ "place_table" ∈ _unlocked (final placing three_results)
  ∧ "collect_wood" ∈ _unlocked (final placing three_results)
  ∧ "collect_stone" ∉ _unlocked (final placing three_results).
Proof.
  destruct (unlocked_collects_achievements (counter 0 0)
              (blank specify_curri_task [3]) placing three_steps three_results
              placing_reset three_results_run) as (Hempty & _ & Hin).
  split; [exact Hempty|]. split; [|split].
  - apply Hin. exists (counter 0 1), 1%Z. split; [|split; [reflexivity|lia]].
    unfold three_steps. apply elem_of_cons. by left.
  - apply Hin. exists (counter 1 1), 1%Z. split; [|split; [reflexivity|lia]].
    unfold three_steps. do 2 (apply elem_of_cons; right).
    apply elem_of_cons. by left.
  - intros (a & c & Ha & Hc & _)%Hin. unfold three_steps in Ha.
    repeat (apply elem_of_cons in Ha as [->|Ha]; [vm_compute in Hc; discriminate Hc|]).
    by apply elem_of_nil in Ha.
Defined.

(** Evaluation: the array is shuffled to [1, 2, 3, 0], so ["collect_wood_5"]
    comes first. *)
Definition examined : Env (list nat) :=
  returned evaluating (reset (counter 0 0) evaluating).

Definition examined_results : list (float * Env (list nat)) :=
  returned [] (run (wood_gains 0 6) examined).

Lemma evaluation_assigns_no_decoy_witness :
  target_achievements (blank specify_curri_task [1; 3]) ≠ []
  ∧ _specify_task (state_before examined examined_results 6) = specify_eval_task
  ∧ task_idx (state_before examined examined_results 6)
    < length (target_achievements (state_before examined examined_results 6))
  ∧ is_Some (target_achievements (state_before examined examined_results 6)
               !! task_idx (state_before examined examined_results 6)).
Proof.
  assert (Hreset : reset (counter 0 0)
                     (set_curriculum false (blank specify_curri_task [1; 3]))
                   = OK examined)
    by (unfold examined, evaluating; apply returned_spec; vm_compute; reflexivity).
  assert (Hrun : run (wood_gains 0 6) examined = OK examined_results)
    by (unfold examined_results; apply returned_spec; vm_compute; reflexivity).
  assert (Hk : 6 ≤ length examined_results) by (vm_compute; lia).
  destruct (evaluation_assigns_no_decoy (counter 0 0)
              (blank specify_curri_task [1; 3]) examined (wood_gains 0 6)
              examined_results Hreset Hrun) as [Hne Hall].
  split; [exact Hne|]. exact (Hall 6 Hk).
Defined.

Lemma eval_passes_select_each_task_equally_witness :
  ∃ chosen self',
    select_many (2 * length (target_achievements evaluating)) evaluating
    = OK (chosen, self')
    ∧ chosen
      ≡ₚ mjoin (replicate 2 (seq 0 (length (target_achievements evaluating))))
    ∧ length chosen = 2 * length (target_achievements evaluating)
    ∧ (∀ i, i ∈ chosen → i < length (target_achievements evaluating))
    ∧ _specify_task self' = specify_eval_task
    ∧ target_achievements self' = target_achievements evaluating
    ∧ eval_id self' = 0
    ∧ eval_task_seq self' ≡ₚ seq 0 (length (target_achievements self')).
Proof.
  destruct (set_curriculum_eval (blank specify_curri_task [1; 3]))
    as (Hmode & Hid & Hperm & _).
  exact (eval_passes_select_each_task_equally 2 evaluating Hmode Hid Hperm).
Defined.

Lemma repeat_task_is_compared_without_count_witness :
  join "_" (split "_" "collect_wood_10") = "collect_wood_10"
  ∧ list_last (split "_" "collect_wood_10") = OK "10"
  ∧ watched "collect_wood_10" true = "collect_wood"
  ∧ watched "collect_wood_10" false = "collect_wood_10"
  ∧ watched "10" true = "".
Proof.
  exact (repeat_task_is_compared_without_count "collect_wood" "10" eq_refl).
Defined.

(** The first draw of the selector is 5: a decoy is active. *)
Definition decoyed : Env (list nat) := started specify_curri_task [5].

Lemma decoy_is_never_rewarded_witness :
  length (target_achievements decoyed) ≤ task_idx decoyed
  ∧ ∃ self',
      _get_reward ∅ decoyed = OK (0%float, self')
      ∧ follow_achievements self' = follow_achievements decoyed
      ∧ past_achievements self' = ∅
      ∧ (task_steps decoyed + 1 ≤ 300 →
         task_idx self' = task_idx decoyed ∧ task_enc self' = task_enc decoyed
         ∧ task_steps self' = task_steps decoyed + 1
         ∧ given_achievements self' = given_achievements decoyed).
Proof.
  assert (Hreset : reset (counter 0 0) (blank specify_curri_task [5]) = OK decoyed)
    by (unfold decoyed, started; apply returned_spec; vm_compute; reflexivity).
  assert (Hblank : eval_ready (blank specify_curri_task [5]))
    by (intros Hmode; discriminate Hmode).
  destruct (reset_ready _ _ _ Hblank Hreset) as (Heval & Hgiven & _ & _).
  assert (Hdecoy : length (target_achievements decoyed) ≤ task_idx decoyed)
    by (vm_compute; lia).
  split; [exact Hdecoy|].
  exact (decoy_is_never_rewarded ∅ decoyed Hdecoy Heval Hgiven).
Defined.


Lemma placing_ready : ready placing.
Proof.
  apply (reset_establishes_ready (counter 0 0) (blank specify_curri_task [3])).
  - reflexivity.
  - reflexivity.
  - apply demo_counts.
  - intros Hmode. discriminate Hmode.
  - apply placing_reset.
Qed.

Lemma step_counter_stays_within_timeout_witness :
  task_steps placing = 0
  ∧ (∀ k, k ≤ length three_results →
       task_steps (state_before placing three_results k) ≤ 300)
  ∧ (∀ k reward s, three_results !! k = Some (reward, s) →
       (task_steps s = task_steps (state_before placing three_results k) + 1
        ∧ task_steps s ≤ 300
        ∧ task_idx s = task_idx (state_before placing three_results k)
        ∧ task_enc s = task_enc (state_before placing three_results k))
       ∨ task_steps s = 0).
Proof.
  exact (step_counter_stays_within_timeout (counter 0 0)
           (blank specify_curri_task [3]) placing three_steps three_results
           placing_reset three_results_run).
Defined.

Lemma dictionaries_keep_their_keys_witness :
  dom (follow_achievements (state_before placing three_results 3))
  = list_to_set (target_achievements (blank specify_curri_task [3]))
  ∧ dom (given_achievements (state_before placing three_results 3))
    = list_to_set (dummy_key <$> seq 0 DUMMY_TASKS)
      ∪ list_to_set (target_achievements (blank specify_curri_task [3])).
Proof.
  assert (Hk : 3 ≤ length three_results) by (rewrite three_results_length; lia).
  exact (dictionaries_keep_their_keys (counter 0 0)
           (blank specify_curri_task [3]) placing three_steps three_results
           placing_reset three_results_run 3 Hk).
Defined.

Lemma step_raises_only_key_error_witness :
  _get_reward {[ "collect_wood" := 0%Z ]} placing
  = Raise (KeyError "place_table")
  ∧ ∃ task base rep,
      target_achievements placing !! task_idx placing = Some task
      ∧ target_achievements_base placing !! task_idx placing = Some base
      ∧ isreptask placing !! task_idx placing = Some rep
      ∧ KeyError "place_table" = KeyError (watched base rep)
      ∧ (({[ "collect_wood" := 0%Z ]} : gmap string Z) !! watched base rep
         = None
         ∨ past_achievements placing !! watched base rep = None).
Proof.
  assert (Hraise : _get_reward {[ "collect_wood" := 0%Z ]} placing
                   = Raise (KeyError "place_table"))
    by (vm_compute; reflexivity).
  split; [exact Hraise|].
  exact (step_raises_only_key_error {[ "collect_wood" := 0%Z ]} placing
           (KeyError "place_table") placing_ready Hraise).
Defined.

End Instances.
